(** * Session-scoped OAuth token lifecycle of the Spotify MCP server

    A shallow embedding of the stateful HTTP server of the repository
    (the variant with [cleanupSession], called the canonical variant below,
    and the sibling variant whose tools read the session id from the MCP
    request context), and the properties of its token store, session
    registry and auth gate.

    Modelling conventions.
    - The two process-wide [Map]s, [transports] and [sessionTokens], are
      finite maps keyed by session id.
    - [async] functions are state transformers that either return or throw;
      a request handler runs to completion before the next one starts
      (no interleaving of in-flight handlers is modelled).
    - The network and the MCP SDK are oracles held in a [Runtime] record:
      the [n]-th [fetch] is answered by the oracle at index [n], every
      request issued is appended to the log [sent], and an answer also says
      how many milliseconds the clock advanced while it was awaited.
    - Response bodies are typed after Spotify's documented JSON shapes;
      optional fields are [option]s, numbers are integers, strings are
      UTF-8 byte strings.  JavaScript truthiness of those values is kept:
      the empty string and [undefined] are falsy, [0] is falsy.
    - [console.log] and friends are not modelled. *)

From Stdlib Require Import ZArith Lia Ascii String.
From stdpp Require Import gmap strings list fin_maps pretty.

Local Open Scope string_scope.
Local Open Scope Z_scope.

(** ** JavaScript value helpers *)

Module JS.

(** [!!v] for a value that is a string or [undefined]. *)
Definition truthy (v : option string) : bool :=
  match v with
  | Some s => negb (String.eqb s "")
  | None => false
  end.

(** [a || b]. *)
Definition or (a b : option string) : option string :=
  if truthy a then a else b.

(** [a || b] where [b] is a string. *)
Definition or_else (a : option string) (b : string) : string :=
  match a with
  | Some s => if String.eqb s "" then b else s
  | None => b
  end.

(** [`${v}`] for a value that is a string or [undefined]. *)
Definition to_string (v : option string) : string :=
  match v with
  | Some s => s
  | None => "undefined"
  end.

(** [hay.includes(needle)]. *)
Fixpoint includes (needle hay : string) : bool :=
  String.prefix needle hay
  || match hay with
     | EmptyString => false
     | String _ rest => includes needle rest
     end.

(** [s.replace(pattern, replacement)] with a string pattern, which replaces
    the first occurrence only (the replacements used by the server hold no
    [$] pattern). *)
Fixpoint replace (pattern replacement s : string) : string :=
  if String.prefix pattern s
  then replacement
       +:+ String.substring (String.length pattern)
                            (String.length s - String.length pattern)%nat s
  else match s with
       | EmptyString => EmptyString
       | String c rest => String c (replace pattern replacement rest)
       end.

(** [parts.join(sep)]. *)
Fixpoint join (sep : string) (parts : list string) : string :=
  match parts with
  | [] => ""
  | [p] => p
  | p :: rest => p +:+ sep +:+ join sep rest
  end.

Definition in_range (lo hi : N) (c : ascii) : bool :=
  let n := N_of_ascii c in (lo <=? n)%N && (n <=? hi)%N.

Definition alphanumeric (c : ascii) : bool :=
  in_range 48 57 c || in_range 65 90 c || in_range 97 122 c.

Definition hex_digit (n : N) : ascii :=
  match String.get (N.to_nat n) "0123456789ABCDEF" with
  | Some c => c
  | None => "0"%char
  end.

Definition percent (c : ascii) : string :=
  let n := N_of_ascii c in
  String "%" (String (hex_digit (n / 16)%N) (String (hex_digit (n mod 16)%N) "")).

Definition one_of (chars : string) (c : ascii) : bool :=
  includes (String c "") chars.

Fixpoint escape (keep : ascii -> bool) (space_as_plus : bool) (s : string)
  : string :=
  match s with
  | EmptyString => EmptyString
  | String c rest =>
      (if keep c then String c ""
       else if space_as_plus && Ascii.eqb c " " then "+"
       else percent c)
      +:+ escape keep space_as_plus rest
  end.

(** [encodeURIComponent(s)], on the UTF-8 bytes of [s]. *)
Definition encodeURIComponent (s : string) : string :=
  escape (fun c => alphanumeric c || one_of "-_.!~*'()" c) false s.

(** The application/x-www-form-urlencoded byte serializer behind
    [URLSearchParams]. *)
Definition form_encode (s : string) : string :=
  escape (fun c => alphanumeric c || one_of "*-._" c) true s.

(** [new URLSearchParams({...}).toString()]: the entries in insertion
    order. *)
Definition URLSearchParams_toString (params : list (string * string)) : string :=
  join "&" (map (fun kv => form_encode (fst kv) +:+ "=" +:+ form_encode (snd kv))
                params).

End JS.

(** ** Data model *)

(** The value kept in [sessionTokens].  [refreshToken] is whatever the token
    endpoint sent, possibly [undefined]; [expiresAt] is [None] when unset. *)
Record TokenRecord := {
  accessToken : string;
  refreshToken : option string;
  expiresAt : option Z;
}.

(** What the server reads of a [StreamableHTTPServerTransport]: its
    [sessionId], which the SDK sets once the initialize request was
    handled. *)
Record Transport := {
  transport_sessionId : option string;
}.

(** A thrown value: [error.message] and [error.response?.status].  What
    the program and its libraries throw are objects ([new Error(...)], the
    rejections of [fetch] and [response.json()]); a thrown [null] or
    [undefined], on which reading [error.message] would itself throw, is not
    represented. *)
Record Error := {
  message : string;
  response_status : option Z;
}.

(** [new Error(message)]: it has no [response] property. *)
Definition new_Error (msg : string) : Error :=
  {| message := msg; response_status := None |}.

(** A tool result [{ content: [{ type: "text", text }], isError }]; an absent
    [isError] is [false]. *)
Record ToolResult := {
  text : string;
  isError : bool;
}.

Inductive Authorization :=
| Basic (client_id client_secret : string)
    (* "Basic " + base64(client_id + ":" + client_secret) *)
| Bearer (token : string).

Record Request := {
  url : string;
  method : string;
  authorization : Authorization;
  form : list (string * string);   (* the URLSearchParams body, if any *)
}.

(** The JSON body of [accounts.spotify.com/api/token]. *)
Record TokenData := {
  access_token : string;
  refresh_token : option string;
  expires_in : Z;
  error_description : option string;
  error : option string;
}.

Record Track := {
  track_id : string;
  track_name : string;
  track_artists : list string;   (* track.artists[i].name *)
  track_album : string;          (* track.album.name *)
  track_uri : string;
}.

(** The JSON body of a Web API answer: [data.error?.message], and the track
    list ([data.tracks.items] for a search, [data.tracks] for
    recommendations). *)
Record ApiData := {
  error_message : option string;
  tracks : list Track;
}.

(** The outcome of [await fetch(...)] followed by [await response.json()]:
    either of the two rejects, or a status and a parsed body arrive. *)
Inductive Fetched (D : Type) :=
| Rejected (reason : string)
| Response (status : Z) (data : D).
Arguments Rejected {D} reason.
Arguments Response {D} status data.

(** [response.ok] *)
Definition ok (status : Z) : bool := (200 <=? status) && (status <=? 299).

(** The track summary the tools print. *)
Record TrackSummary := {
  id : string;
  name : string;
  artist : string;
  album : string;
  uri : string;
}.

(** ** Server state *)

Record World := {
  transports : gmap string Transport;
  sessionTokens : gmap string TokenRecord;
  clock : Z;                (* what [Date.now()] returns *)
  sent : list Request;      (* every request issued so far, oldest first *)
}.

Definition set_transports (f : gmap string Transport -> gmap string Transport)
    (w : World) : World :=
  {| transports := f (transports w); sessionTokens := sessionTokens w;
     clock := clock w; sent := sent w |}.

Definition set_sessionTokens
    (f : gmap string TokenRecord -> gmap string TokenRecord) (w : World) : World :=
  {| transports := transports w; sessionTokens := f (sessionTokens w);
     clock := clock w; sent := sent w |}.

(** ** Computations that return or throw *)

Inductive Outcome (A : Type) :=
| Return (a : A)
| Throw (e : Error).
Arguments Return {A} a.
Arguments Throw {A} e.

Definition M (A : Type) : Type := World -> Outcome A * World.

Definition ret {A} (a : A) : M A := fun w => (Return a, w).

Definition throw {A} (e : Error) : M A := fun w => (Throw e, w).

Definition bind {A B} (m : M A) (k : A -> M B) : M B := fun w =>
  match m w with
  | (Return a, w') => k a w'
  | (Throw e, w') => (Throw e, w')
  end.

(** [try { body } catch (error) { handler }] *)
Definition try_catch {A} (body : M A) (handler : Error -> M A) : M A := fun w =>
  match body w with
  | (Return a, w') => (Return a, w')
  | (Throw e, w') => handler e w'
  end.

Definition gets {A} (f : World -> A) : M A := fun w => (Return (f w), w).

Definition modify (f : World -> World) : M unit := fun w => (Return tt, f w).

Notation "'let*' x ':=' m 'in' k" := (bind m (fun x => k))
  (at level 10, x name, m at level 100, k at level 200).
Notation "m ';;' k" := (bind m (fun _ => k))
  (at level 100, k at level 200, right associativity).

(** ** HTTP messages *)

Inductive ResBody :=
| JsonRpcError (code : Z) (msg : string)   (* { jsonrpc: "2.0", error, id: null } *)
| Plain (content : string)
| Html (title : string) (href : option string)   (* a static page and its link *)
| McpReply.                                (* whatever the transport wrote *)

Record HttpResponse := {
  res_status : Z;
  res_body : ResBody;
}.

(** A request to [/mcp]: the [mcp-session-id] header and
    [isInitializeRequest(req.body)]. *)
Record McpRequest := {
  mcp_session_id : option string;
  is_initialize : bool;
}.

(** How [transport.handleRequest] ended: it responded, or it threw, in which
    case [written] is the response whose headers were already sent, if any. *)
Inductive Handled :=
| Responded (r : HttpResponse)
| Failed (e : Error) (written : option HttpResponse).

(** ** The environment of the process *)

(** Configuration, the network, the MCP SDK and the runtime built-ins. *)
Record Runtime := {
  SPOTIFY_CLIENT_ID : string;
  SPOTIFY_CLIENT_SECRET : string;
  (* process.env.SPOTIFY_REDIRECT_URI *)
  env_SPOTIFY_REDIRECT_URI : option string;
  (* accounts.spotify.com: the answer to the request issued when [n]
     requests were sent before it, and the milliseconds it took *)
  accounts : nat -> Request -> Z * Fetched TokenData;
  (* api.spotify.com, likewise *)
  web_api : nat -> Request -> Z * Fetched ApiData;
  (* JSON.stringify(tracks, null, 2) *)
  JSON_stringify : list TrackSummary -> string;
  (* randomUUID() *)
  randomUUID : World -> string;
  (* transport.handleRequest(req, res, body) of the transport registered
     under the given key *)
  handleRequest : string -> McpRequest -> World -> Handled * World;
  (* whether the SDK's close() calls the transport's onclose handler *)
  close_calls_onclose : bool;
  (* how deep close() and onclose may re-enter one another before the call
     stack is exhausted *)
  stack_depth : nat;
}.

Definition nl : string := String "010"%char "".

Inductive ToolResponse :=
| InvalidArguments              (* the input schema refused the arguments *)
| Completed (result : ToolResult).

Section Server.

Variable rt : Runtime.

Definition SPOTIFY_REDIRECT_URI : string :=
  JS.or_else (env_SPOTIFY_REDIRECT_URI rt) "http://localhost:8080/callback/spotify".

Definition Date_now : M Z := gets clock.

(** The world once a request was answered after [elapsed] milliseconds. *)
Definition answered (elapsed : Z) (request : Request) (w : World) : World :=
  {| transports := transports w; sessionTokens := sessionTokens w;
     clock := clock w + elapsed; sent := sent w ++ [request] |}.

(** [await fetch(url, init)] and [await response.json()] against one of the
    two hosts. *)
Definition fetch {D} (host : nat -> Request -> Z * Fetched D) (request : Request)
  : M (Z * D) := fun w =>
  let answer := host (length (sent w)) request in
  let w' := answered (fst answer) request w in
  match snd answer with
  | Rejected reason => (Throw (new_Error reason), w')
  | Response status data => (Return (status, data), w')
  end.

(** *** Session teardown *)

(** [cleanupSession(sessionId)].  [transport.close()] is SDK code, called
    inside [try]/[catch]; when the SDK notifies the close, the [onclose]
    handler installed by the POST route runs before [close()] returns, and it
    calls [cleanupSession(transport.sessionId)] while the transport is still
    registered.  [depth] bounds that re-entrancy: at depth [0] the
    notification does not get to run (the call stack is exhausted, and the
    [catch] swallows the failure). *)
Fixpoint cleanupSession (depth : nat) (sessionId : string) (w : World) : World :=
  let w1 :=
    match transports w !! sessionId with
    | Some transport =>
        let closed :=
          match depth with
          | S depth' =>
              if close_calls_onclose rt
              then if JS.truthy (transport_sessionId transport)
                   then cleanupSession depth'
                          (JS.to_string (transport_sessionId transport)) w
                   else w
              else w
          | O => w
          end in
        set_transports (delete sessionId) closed
    | None => w
    end in
  set_sessionTokens (delete sessionId) w1.

(** [transport.onclose], as installed by the POST route. *)
Definition onclose (depth : nat) (transport : Transport) (w : World) : World :=
  if JS.truthy (transport_sessionId transport)
  then cleanupSession depth (JS.to_string (transport_sessionId transport)) w
  else w.

(** *** Token store *)

Definition isTokenExpired (tokens : TokenRecord) : M bool :=
  match expiresAt tokens with
  | None => ret true
  | Some at_ =>
      if at_ =? 0 then ret true
      else let* now := Date_now in ret (at_ <=? now)
  end.

Definition getSpotifyAuthUrl (sessionId : string) : string :=
  "https://accounts.spotify.com/authorize?"
  +:+ JS.URLSearchParams_toString
        [ ("response_type", "code");
          ("client_id", SPOTIFY_CLIENT_ID rt);
          ("scope", "user-read-private user-read-email playlist-read-private playlist-modify-private playlist-modify-public");
          ("redirect_uri", SPOTIFY_REDIRECT_URI);
          ("state", sessionId) ].

Definition token_request (params : list (string * string)) : Request :=
  {| url := "https://accounts.spotify.com/api/token";
     method := "POST";
     authorization := Basic (SPOTIFY_CLIENT_ID rt) (SPOTIFY_CLIENT_SECRET rt);
     form := params |}.

Definition exchange_request (code : string) : Request :=
  token_request [ ("grant_type", "authorization_code");
                  ("code", code);
                  ("redirect_uri", SPOTIFY_REDIRECT_URI) ].

Definition exchangeCodeForTokens (code : string) : M TokenRecord :=
  let* response := fetch (accounts rt) (exchange_request code) in
  let data := snd response in
  if negb (ok (fst response))
  then throw (new_Error ("Token exchange failed: "
                         +:+ JS.to_string (JS.or (error_description data) (error data))))
  else
    let* now := Date_now in
    ret {| accessToken := access_token data;
           refreshToken := refresh_token data;
           expiresAt := Some (now + expires_in data * 1000) |}.

Definition refresh_request (tokens : TokenRecord) : Request :=
  token_request [ ("grant_type", "refresh_token");
                  ("refresh_token", JS.to_string (refreshToken tokens)) ].

Definition refreshSpotifyToken (tokens : TokenRecord) : M TokenRecord :=
  let* response := fetch (accounts rt) (refresh_request tokens) in
  let data := snd response in
  if negb (ok (fst response))
  then throw (new_Error ("Token refresh failed: "
                         +:+ JS.to_string (JS.or (error_description data) (error data))))
  else
    let* now := Date_now in
    ret {| accessToken := access_token data;
           refreshToken := JS.or (refresh_token data) (refreshToken tokens);
           expiresAt := Some (now + expires_in data * 1000) |}.

(** The result is [null] ([None]) or [tokens.accessToken]. *)
Definition getValidAccessToken (sessionId : string) : M (option string) :=
  let* stored := gets (fun w => sessionTokens w !! sessionId) in
  match stored with
  | None => ret None
  | Some tokens =>
      let* expired := isTokenExpired tokens in
      if expired
      then
        try_catch
          (let* tokens' := refreshSpotifyToken tokens in
           modify (set_sessionTokens <[sessionId := tokens']>);;
           ret (Some (accessToken tokens')))
          (fun _ =>
             modify (set_sessionTokens (delete sessionId));;
             ret None)
      else ret (Some (accessToken tokens))
  end.

(** *** Auth gate *)

Definition baseUrl : string :=
  JS.or_else (JS.replace "/callback/spotify" "" <$> env_SPOTIFY_REDIRECT_URI rt)
             "http://localhost:8080".

Definition authUrl (sessionId : string) : string :=
  baseUrl +:+ "/auth?session=" +:+ sessionId.

Definition auth_required (sessionId : string) : ToolResult :=
  {| text := "🎵 **Spotify Authentication Required**" +:+ nl +:+ nl
             +:+ "To use Spotify features, please visit:" +:+ nl +:+ nl
             +:+ authUrl sessionId +:+ nl +:+ nl
             +:+ "This will redirect you to connect your Spotify account. After authentication, return here and try your request again.";
     isError := false |}.

Definition auth_expired (sessionId : string) : ToolResult :=
  {| text := "🔐 **Spotify Authentication Expired**" +:+ nl +:+ nl
             +:+ "Your Spotify session has expired. Please visit:" +:+ nl +:+ nl
             +:+ authUrl sessionId +:+ nl +:+ nl
             +:+ "After completing authentication, return here and try your request again.";
     isError := true |}.

Definition api_error (e : Error) : ToolResult :=
  {| text := "❌ **Spotify API Error**" +:+ nl +:+ nl +:+ message e;
     isError := true |}.

Definition handleSpotifyTool (sessionId : string)
    (apiCall : string -> M ToolResult) : M ToolResult :=
  let* accessToken := getValidAccessToken sessionId in
  if negb (JS.truthy accessToken)
  then ret (auth_required sessionId)
  else
    try_catch
      (apiCall (JS.to_string accessToken))
      (fun e =>
         if bool_decide (response_status e = Some 401)
         then modify (set_sessionTokens (delete sessionId));;
              ret (auth_expired sessionId)
         else ret (api_error e)).

(** *** Tools *)

(** [z.number().min(lo).max(hi).default(d)] *)
Definition number_schema (lo hi d : Z) (input : option Z) : option Z :=
  let value := default d input in
  if (lo <=? value) && (value <=? hi) then Some value else None.

(** [z.array(z.string()).max(n)] *)
Definition array_schema (n : nat) (input : option (list string))
  : option (list string) :=
  match input with
  | Some items => if (length items <=? n)%nat then Some items else None
  | None => None
  end.

Definition summary (track : Track) : TrackSummary :=
  {| id := track_id track;
     name := track_name track;
     artist := JS.join ", " (track_artists track);
     album := track_album track;
     uri := track_uri track |}.

Definition api_get (address accessToken : string) : Request :=
  {| url := address; method := "GET";
     authorization := Bearer accessToken; form := [] |}.

Definition spotify_api_error (data : ApiData) : Error :=
  new_Error ("Spotify API error: "
             +:+ JS.or_else (error_message data) "Unknown error").

Definition tracks_result (data : ApiData) : ToolResult :=
  {| text := JSON_stringify rt (map summary (tracks data)); isError := false |}.

Definition search_request (query : string) (limit : Z) (accessToken : string)
  : Request :=
  api_get ("https://api.spotify.com/v1/search?q=" +:+ JS.encodeURIComponent query
           +:+ "&type=track&limit=" +:+ pretty limit)
          accessToken.

(** The [apiCall] of [search-tracks]. *)
Definition search_tracks_call (query : string) (limit : Z) (accessToken : string)
  : M ToolResult :=
  let* response := fetch (web_api rt) (search_request query limit accessToken) in
  let data := snd response in
  if negb (ok (fst response))
  then throw (spotify_api_error data)
  else ret (tracks_result data).

Definition search_tracks (sessionId query : string) (limit : Z) : M ToolResult :=
  handleSpotifyTool sessionId (search_tracks_call query limit).

(** A [search-tracks] invocation: the SDK checks the arguments against the
    input schema, then runs the handler. *)
Definition call_search_tracks (sessionId : string)
    (query : option string) (limit : option Z) : M ToolResponse :=
  match query, number_schema 1 50 10 limit with
  | Some query, Some limit =>
      let* result := search_tracks sessionId query limit in
      ret (Completed result)
  | _, _ => ret InvalidArguments
  end.

Definition recommendations_request (seedTracks : list string) (limit : Z)
    (accessToken : string) : Request :=
  api_get ("https://api.spotify.com/v1/recommendations?seed_tracks="
           +:+ JS.join "," seedTracks +:+ "&limit=" +:+ pretty limit)
          accessToken.

(** The [apiCall] of [get-recommendations]. *)
Definition get_recommendations_call (seedTracks : list string) (limit : Z)
    (accessToken : string) : M ToolResult :=
  if (length seedTracks =? 0)%nat
  then throw (new_Error "At least one seed track is required")
  else
    let* response :=
      fetch (web_api rt) (recommendations_request seedTracks limit accessToken) in
    let data := snd response in
    if negb (ok (fst response))
    then throw (spotify_api_error data)
    else ret (tracks_result data).

Definition get_recommendations (sessionId : string) (seedTracks : list string)
    (limit : Z) : M ToolResult :=
  handleSpotifyTool sessionId (get_recommendations_call seedTracks limit).

Definition call_get_recommendations (sessionId : string)
    (seedTracks : option (list string)) (limit : option Z) : M ToolResponse :=
  match array_schema 5 seedTracks, number_schema 1 100 20 limit with
  | Some seedTracks, Some limit =>
      let* result := get_recommendations sessionId seedTracks limit in
      ret (Completed result)
  | _, _ => ret InvalidArguments
  end.

(** *** HTTP routes *)

(** [GET /auth]; the page's button links to the authorization URL. *)
Definition get_auth (session : option string) : HttpResponse :=
  if negb (JS.truthy session)
  then {| res_status := 400; res_body := Plain "Missing session ID" |}
  else {| res_status := 200;
          res_body := Html "Connect Spotify to Claude"
                           (Some (getSpotifyAuthUrl (JS.to_string session))) |}.

(** [GET /callback/spotify], with [const { code, state: sessionId, error } =
    req.query]. *)
Definition get_callback_spotify (code state error : option string)
  : M HttpResponse :=
  if JS.truthy error
  then ret {| res_status := 400;
              res_body := Plain ("Authentication error: " +:+ JS.to_string error) |}
  else if negb (JS.truthy code) || negb (JS.truthy state)
  then ret {| res_status := 400;
              res_body := Plain "Missing authorization code or session ID" |}
  else
    try_catch
      (let* tokens := exchangeCodeForTokens (JS.to_string code) in
       modify (set_sessionTokens <[JS.to_string state := tokens]>);;
       ret {| res_status := 200;
              res_body := Html "Spotify Connected Successfully" None |})
      (fun e =>
         ret {| res_status := 500;
                res_body := Plain ("Authentication error: " +:+ message e) |}).

(** [sessionId && transports.has(sessionId)] *)
Definition known_session (sessionId : option string) (w : World) : bool :=
  JS.truthy sessionId
  && bool_decide (is_Some (transports w !! JS.to_string sessionId)).

Definition bad_request : HttpResponse :=
  {| res_status := 400;
     res_body := JsonRpcError (-32000) "Bad Request: No valid session ID provided" |}.

Definition internal_error : HttpResponse :=
  {| res_status := 500; res_body := JsonRpcError (-32603) "Internal server error" |}.

(** [await transport.handleRequest(...)] where a failure propagates. *)
Definition transport_handleRequest (key : string) (req : McpRequest)
  : M HttpResponse := fun w =>
  match handleRequest rt key req w with
  | (Responded r, w') => (Return r, w')
  | (Failed e _, w') => (Throw e, w')
  end.

(** [await transport.handleRequest(...)] under the POST route's
    [try]/[catch], which answers 500 unless headers were sent. *)
Definition transport_handleRequest_caught (key : string) (req : McpRequest)
  : M HttpResponse := fun w =>
  match handleRequest rt key req w with
  | (Responded r, w') => (Return r, w')
  | (Failed _ (Some r), w') => (Return r, w')
  | (Failed _ None, w') => (Return internal_error, w')
  end.

(** [POST /mcp].  A new transport has no [sessionId] yet; [server.connect]
    only installs callbacks and is taken to succeed. *)
Definition post_mcp (req : McpRequest) : M HttpResponse :=
  let sessionId := mcp_session_id req in
  let* known := gets (known_session sessionId) in
  if known
  then transport_handleRequest_caught (JS.to_string sessionId) req
  else if negb (JS.truthy sessionId) && is_initialize req
  then
    let* newSessionId := gets (randomUUID rt) in
    modify (set_transports <[newSessionId := {| transport_sessionId := None |}]>);;
    transport_handleRequest_caught newSessionId req
  else ret bad_request.

(** [DELETE /mcp] *)
Definition delete_mcp (req : McpRequest) : M HttpResponse :=
  let sessionId := mcp_session_id req in
  let* known := gets (known_session sessionId) in
  if negb known
  then ret {| res_status := 400; res_body := Plain "Invalid or missing session ID" |}
  else
    let* response := transport_handleRequest (JS.to_string sessionId) req in
    modify (cleanupSession (stack_depth rt) (JS.to_string sessionId));;
    ret response.

End Server.

(** ** The variant whose tools take the session id from the request context *)

Module ContextVariant.

Section Server.

Variable rt : Runtime.

Definition auth_required (sessionId : string) : ToolResult :=
  {| text := "Please authenticate with Spotify by visiting this link:" +:+ nl
             +:+ getSpotifyAuthUrl rt sessionId +:+ nl +:+ nl
             +:+ "After authentication, come back and try again.";
     isError := false |}.

Definition auth_expired (sessionId : string) : ToolResult :=
  {| text := "Authentication expired. Please authenticate again:" +:+ nl
             +:+ getSpotifyAuthUrl rt sessionId;
     isError := true |}.

Definition api_error (e : Error) : ToolResult :=
  {| text := "Error: " +:+ message e; isError := true |}.

Definition handleSpotifyTool (sessionId : string)
    (apiCall : string -> M ToolResult) : M ToolResult :=
  let* accessToken := getValidAccessToken rt sessionId in
  if negb (JS.truthy accessToken)
  then ret (auth_required sessionId)
  else
    try_catch
      (apiCall (JS.to_string accessToken))
      (fun e =>
         if bool_decide (response_status e = Some 401)
         then modify (set_sessionTokens (delete sessionId));;
              ret (auth_expired sessionId)
         else ret (api_error e)).

(** [search-tracks], with [const sessionId = context.sessionId]. *)
Definition search_tracks (sessionId query : string) (limit : Z) : M ToolResult :=
  handleSpotifyTool sessionId (search_tracks_call rt query limit).

Definition call_search_tracks (sessionId : string)
    (query : option string) (limit : option Z) : M ToolResponse :=
  match query, number_schema 1 50 10 limit with
  | Some query, Some limit =>
      let* result := search_tracks sessionId query limit in
      ret (Completed result)
  | _, _ => ret InvalidArguments
  end.

End Server.

End ContextVariant.

(** ** Vocabulary of the properties *)

(** Whether a record counts as expired when the clock shows [now]. *)
Definition expired (now : Z) (tokens : TokenRecord) : bool :=
  match expiresAt tokens with
  | None => true
  | Some at_ => (at_ =? 0) || (at_ <=? now)
  end.

(** The record [refreshSpotifyToken] builds from an accepted answer. *)
Definition refreshed (now : Z) (tokens : TokenRecord) (data : TokenData)
  : TokenRecord :=
  {| accessToken := access_token data;
     refreshToken := JS.or (refresh_token data) (refreshToken tokens);
     expiresAt := Some (now + expires_in data * 1000) |}.

(** No token record without a registered transport. *)
Definition orphan_free (w : World) : Prop :=
  forall sid, is_Some (sessionTokens w !! sid) -> is_Some (transports w !! sid).

(** The two ways a session is destroyed: the explicit [cleanupSession] call
    of the DELETE route, and the transport's close notification. *)
Inductive Destroy :=
| Terminate (sessionId : string)
| Closed (transport : Transport).

Definition destroy (rt : Runtime) (w : World) (op : Destroy) : World :=
  match op with
  | Terminate sessionId => cleanupSession rt (stack_depth rt) sessionId w
  | Closed transport => onclose rt (stack_depth rt) transport w
  end.

(** ** Sample runs *)

(** A runtime with the default configuration, whose two hosts give the same
    answer to every request. *)
Definition demo_runtime (token_answer : Fetched TokenData)
    (api_answer : Fetched ApiData) : Runtime :=
  {| SPOTIFY_CLIENT_ID := "client-id";
     SPOTIFY_CLIENT_SECRET := "client-secret";
     env_SPOTIFY_REDIRECT_URI := None;
     accounts := fun _ _ => (250, token_answer);
     web_api := fun _ _ => (120, api_answer);
     JSON_stringify := fun items => pretty (length items);
     randomUUID := fun w => "session-" +:+ pretty (size (transports w));
     handleRequest := fun _ _ w =>
       (Responded {| res_status := 200; res_body := McpReply |}, w);
     close_calls_onclose := true;
     stack_depth := 4 |}.

Definition offline : Runtime :=
  demo_runtime (Rejected "connect ECONNREFUSED") (Rejected "connect ECONNREFUSED").

Definition empty_world : World :=
  {| transports := ∅; sessionTokens := ∅; clock := 1000; sent := [] |}.

Definition record1 : TokenRecord :=
  {| accessToken := "at1"; refreshToken := Some "rt1"; expiresAt := Some 5000 |}.

(** Session [s1] is live and holds [record1], which expires at 5000; the
    clock shows [start]. *)
Definition session_world (start : Z) : World :=
  {| transports := {[ "s1" := {| transport_sessionId := Some "s1" |} ]};
     sessionTokens := {[ "s1" := record1 ]};
     clock := start; sent := [] |}.

Definition renewed : TokenData :=
  {| access_token := "at2"; refresh_token := None; expires_in := 3600;
     error_description := None; error := None |}.

Definition renewed_with_empty_refresh_token : TokenData :=
  {| access_token := "at2"; refresh_token := Some ""; expires_in := 3600;
     error_description := None; error := None |}.

Definition granted : TokenData :=
  {| access_token := "at1"; refresh_token := Some "rt1"; expires_in := 3600;
     error_description := None; error := None |}.

Definition server_error : ApiData :=
  {| error_message := Some "Service unavailable"; tracks := [] |}.

Definition token_expired_body : ApiData :=
  {| error_message := Some "The access token expired"; tracks := [] |}.

(** An [apiCall] that would issue a request if it were run. *)
Definition probe : string -> M ToolResult := fun accessToken =>
  search_tracks_call offline "probe" 1 accessToken.

(** ** The remaining routes and tools *)

(** The bodies of the other Web API answers the tools read. *)
Record UserData := {
  user_error_message : option string;   (* data.error?.message *)
  user_id : option string;              (* data.id *)
  display_name : option string;
  email : option string;
  country : option string;
  followers_total : option Z;           (* data.followers?.total *)
}.

Record PlaylistData := {
  playlist_error_message : option string;
  playlist_name : string;
  playlist_id : string;
  external_urls_spotify : string;       (* data.external_urls.spotify *)
}.

(** The object [get-current-user] prints. *)
Record Profile := {
  profile_id : option string;
  profile_name : option string;
  profile_email : option string;
  profile_country : option string;
  followers : Z;
}.

(** The [JSON.stringify]-ed body of a POST to the Web API. *)
Inductive JsonBody :=
| PlaylistBody (name description : string) (public : bool)
| UrisBody (uris : list string).

(** The Web API endpoints besides search and recommendations.  A POST's
    JSON body is handed to the endpoint; the log [sent] keeps its request
    line and headers. *)
Record WebApi := {
  me : nat -> Request -> Z * Fetched UserData;
  playlists : nat -> Request -> JsonBody -> Z * Fetched PlaylistData;
  playlist_tracks : nat -> Request -> JsonBody -> Z * Fetched ApiData;
  (* JSON.stringify(profile, null, 2) *)
  JSON_stringify_profile : Profile -> string;
}.

Section MoreOfTheServer.

Variable rt : Runtime.
Variable api : WebApi.

(** [GET /mcp] *)
Definition get_mcp (req : McpRequest) : M HttpResponse :=
  let sessionId := mcp_session_id req in
  let* known := gets (known_session sessionId) in
  if negb known
  then ret {| res_status := 400; res_body := Plain "Invalid or missing session ID" |}
  else transport_handleRequest rt (JS.to_string sessionId) req.

(** [new Error(`Spotify API error: ${data.error?.message || "Unknown error"}`)] *)
Definition api_failure (error_message : option string) : Error :=
  new_Error ("Spotify API error: " +:+ JS.or_else error_message "Unknown error").

Definition api_post (address accessToken : string) : Request :=
  {| url := address; method := "POST";
     authorization := Bearer accessToken; form := [] |}.

Definition me_request (accessToken : string) : Request :=
  api_get "https://api.spotify.com/v1/me" accessToken.

(** The [apiCall] of [get-current-user]. *)
Definition get_current_user_call (accessToken : string) : M ToolResult :=
  let* response := fetch (me api) (me_request accessToken) in
  let data := snd response in
  if negb (ok (fst response))
  then throw (api_failure (user_error_message data))
  else ret {| text := JSON_stringify_profile api
                        {| profile_id := user_id data;
                           profile_name := display_name data;
                           profile_email := email data;
                           profile_country := country data;
                           followers := default 0 (followers_total data) |};
              isError := false |}.

Definition get_current_user (sessionId : string) : M ToolResult :=
  handleSpotifyTool rt sessionId get_current_user_call.

Definition create_playlist_request (userId : option string) (accessToken : string)
  : Request :=
  api_post ("https://api.spotify.com/v1/users/" +:+ JS.to_string userId
            +:+ "/playlists")
           accessToken.

(** The [apiCall] of [create-playlist]. *)
Definition create_playlist_call (name description : string) (isPublic : bool)
    (accessToken : string) : M ToolResult :=
  let* userResponse := fetch (me api) (me_request accessToken) in
  let userData := snd userResponse in
  let userId := user_id userData in
  let* response :=
    fetch (fun n request =>
             playlists api n request (PlaylistBody name description isPublic))
          (create_playlist_request userId accessToken) in
  let data := snd response in
  if negb (ok (fst response))
  then throw (api_failure (playlist_error_message data))
  else ret {| text := "✅ Playlist created successfully!" +:+ nl +:+ nl
                      +:+ "**" +:+ playlist_name data +:+ "**" +:+ nl
                      +:+ "ID: " +:+ playlist_id data +:+ nl
                      +:+ "🔗 [Open in Spotify](" +:+ external_urls_spotify data
                      +:+ ")";
              isError := false |}.

Definition create_playlist (sessionId name description : string)
    (isPublic : bool) : M ToolResult :=
  handleSpotifyTool rt sessionId (create_playlist_call name description isPublic).

(** A [create-playlist] invocation: [name] is required, [description] is
    optional and defaults to [""] in the handler's parameter list, [public]
    defaults to [false] in the schema. *)
Definition call_create_playlist (sessionId : string) (name description : option string)
    (public : option bool) : M ToolResponse :=
  match name with
  | Some name =>
      let* result :=
        create_playlist sessionId name (default "" description)
                        (default false public) in
      ret (Completed result)
  | None => ret InvalidArguments
  end.

Definition add_tracks_request (playlistId accessToken : string) : Request :=
  api_post ("https://api.spotify.com/v1/playlists/" +:+ playlistId +:+ "/tracks")
           accessToken.

(** The [apiCall] of [add-tracks-to-playlist]. *)
Definition add_tracks_to_playlist_call (playlistId : string)
    (trackUris : list string) (accessToken : string) : M ToolResult :=
  let* response :=
    fetch (fun n request => playlist_tracks api n request (UrisBody trackUris))
          (add_tracks_request playlistId accessToken) in
  let data := snd response in
  if negb (ok (fst response))
  then throw (spotify_api_error data)
  else ret {| text := "✅ Successfully added " +:+ pretty (length trackUris)
                      +:+ " track(s) to playlist!";
              isError := false |}.

Definition add_tracks_to_playlist (sessionId playlistId : string)
    (trackUris : list string) : M ToolResult :=
  handleSpotifyTool rt sessionId (add_tracks_to_playlist_call playlistId trackUris).

Definition call_add_tracks_to_playlist (sessionId : string)
    (playlistId : option string) (trackUris : option (list string))
  : M ToolResponse :=
  match playlistId, trackUris with
  | Some playlistId, Some trackUris =>
      let* result := add_tracks_to_playlist sessionId playlistId trackUris in
      ret (Completed result)
  | _, _ => ret InvalidArguments
  end.

End MoreOfTheServer.

(** The close handler and the DELETE route of the request-context variant. *)
Module ContextVariantSessions.

(** [transport.onclose]: it removes both entries itself. *)
Definition onclose (transport : Transport) (w : World) : World :=
  if JS.truthy (transport_sessionId transport)
  then set_sessionTokens
         (delete (JS.to_string (transport_sessionId transport)))
         (set_transports
            (delete (JS.to_string (transport_sessionId transport))) w)
  else w.

(** [DELETE /mcp]: the request goes to the transport and nothing else is
    done. *)
Definition delete_mcp (rt : Runtime) (req : McpRequest) : M HttpResponse :=
  let sessionId := mcp_session_id req in
  let* known := gets (known_session sessionId) in
  if negb known
  then ret {| res_status := 400; res_body := Plain "Invalid or missing session ID" |}
  else transport_handleRequest rt (JS.to_string sessionId) req.

End ContextVariantSessions.

(** ** The single-tenant variants

    [spotify_mcp_http.js] and [spotify_mcp_http.ts] keep one credential set,
    [spotifyAuthInfo], instead of a record per session, and check the access
    token by asking [GET /v1/me] before every use.  A computation takes the
    credentials and returns them with its result; none throws after having
    changed them. *)

Module SingleTenant.

Record AuthInfo := {
  accessToken : string;
  refreshToken : string;
  clientId : string;
  clientSecret : string;
}.

(** The credentials a new server instance starts with. *)
Definition spotifyAuthInfo : AuthInfo :=
  {| accessToken := ""; refreshToken := ""; clientId := ""; clientSecret := "" |}.

Section Server.

Variable rt : Runtime.
Variable api : WebApi.

Definition refresh_request (info : AuthInfo) : Request :=
  {| url := "https://accounts.spotify.com/api/token";
     method := "POST";
     authorization := Basic (clientId info) (clientSecret info);
     form := [ ("grant_type", "refresh_token");
               ("refresh_token", refreshToken info) ] |}.

Definition getValidAccessToken (info : AuthInfo) : M (string * AuthInfo) :=
  if negb (JS.truthy (Some (accessToken info)))
     || negb (JS.truthy (Some (refreshToken info)))
  then throw (new_Error "No access token available. Please set credentials first using the set-spotify-credentials tool.")
  else
    try_catch
      (let* response := fetch (me api) (me_request (accessToken info)) in
       if ok (fst response)
       then ret (accessToken info, info)
       else
         let* refreshResponse := fetch (accounts rt) (refresh_request info) in
         let data := snd refreshResponse in
         if JS.truthy (Some (access_token data))
         then ret (access_token data,
                   {| accessToken := access_token data;
                      refreshToken := refreshToken info;
                      clientId := clientId info;
                      clientSecret := clientSecret info |})
         else throw (new_Error "Failed to refresh access token"))
      (fun e => throw (new_Error ("Error with access token: " +:+ message e))).

(** The handler of [set-spotify-credentials]. *)
Definition set_spotify_credentials
    (clientId clientSecret accessToken refreshToken : string) (info : AuthInfo)
  : ToolResult * AuthInfo :=
  ({| text := "Spotify credentials set successfully. You can now use other Spotify tools.";
      isError := false |},
   {| accessToken := accessToken; refreshToken := refreshToken;
      clientId := clientId; clientSecret := clientSecret |}).

Definition checking_failed (e : Error) : ToolResult :=
  {| text := "Error checking credentials: " +:+ message e; isError := true |}.

(** The handler of [check-credentials-status].  Its one [try] block is
    written as two, so that a failure after token resolution keeps the
    credentials token resolution left. *)
Definition check_credentials_status (info : AuthInfo) : M (ToolResult * AuthInfo) :=
  if negb (JS.truthy (Some (accessToken info)))
     || negb (JS.truthy (Some (refreshToken info)))
     || negb (JS.truthy (Some (clientId info)))
     || negb (JS.truthy (Some (clientSecret info)))
  then ret ({| text := "Spotify credentials are not set. Please use the set-spotify-credentials tool.";
               isError := false |}, info)
  else
    try_catch
      (let* valid := getValidAccessToken info in
       try_catch
         (let* response := fetch (me api) (me_request (fst valid)) in
          let userData := snd response in
          if ok (fst response)
          then ret ({| text := "Spotify credentials are valid." +:+ nl
                               +:+ "Logged in as: "
                               +:+ JS.to_string (display_name userData)
                               +:+ " ("
                               +:+ JS.or_else (email userData) "email not available"
                               +:+ ")";
                       isError := false |}, snd valid)
          else ret ({| text := "Spotify credentials may be invalid. Status code: "
                               +:+ pretty (fst response);
                       isError := true |}, snd valid))
         (fun e => ret (checking_failed e, snd valid)))
      (fun e => ret (checking_failed e, info)).

End Server.

End SingleTenant.

(** ** Further vocabulary and sample data *)

(** Every registered transport is either not initialized yet or registered
    under its own session id. *)
Definition well_keyed (w : World) : Prop :=
  forall key transport,
    transports w !! key = Some transport ->
    transport_sessionId transport = Some key
    \/ JS.truthy (transport_sessionId transport) = false.

(** A computation that leaves both maps as they are, from any world. *)
Definition keeps_maps {A} (m : M A) : Prop :=
  forall w, sessionTokens (snd (m w)) = sessionTokens w
            /\ transports (snd (m w)) = transports w.

(** The four ways the gate ends. *)
Inductive GateEnding (rt : Runtime) (sid : string)
    (apiCall : string -> M ToolResult) (result : ToolResult) : Prop :=
| Prompted : result = auth_required rt sid -> GateEnding rt sid apiCall result
| Expired : result = auth_expired rt sid -> GateEnding rt sid apiCall result
| Reported e : result = api_error e -> GateEnding rt sid apiCall result
| Called accessToken w1 w2 :
    apiCall accessToken w1 = (Return result, w2) ->
    GateEnding rt sid apiCall result.

(** A validated invocation of one of the five registered tools. *)
Inductive ToolCall :=
| SearchTracks (query : string) (limit : Z)
| GetCurrentUser
| CreatePlaylist (name description : string) (public : bool)
| AddTracksToPlaylist (playlistId : string) (trackUris : list string)
| GetRecommendations (seedTracks : list string) (limit : Z).

(** The [apiCall] each tool hands to the gate. *)
Definition apiCall_of (rt : Runtime) (api : WebApi) (call : ToolCall)
  : string -> M ToolResult :=
  match call with
  | SearchTracks query limit => search_tracks_call rt query limit
  | GetCurrentUser => get_current_user_call api
  | CreatePlaylist name description public =>
      create_playlist_call api name description public
  | AddTracksToPlaylist playlistId trackUris =>
      add_tracks_to_playlist_call api playlistId trackUris
  | GetRecommendations seedTracks limit =>
      get_recommendations_call rt seedTracks limit
  end.

Definition run_tool (rt : Runtime) (api : WebApi) (sessionId : string)
    (call : ToolCall) : M ToolResult :=
  handleSpotifyTool rt sessionId (apiCall_of rt api call).


Definition nobody : UserData :=
  {| user_error_message := Some "The access token expired"; user_id := None;
     display_name := None; email := None; country := None;
     followers_total := None |}.

Definition somebody : UserData :=
  {| user_error_message := None; user_id := Some "user-1";
     display_name := Some "Ada"; email := Some "ada@example.org";
     country := Some "GB"; followers_total := None |}.

Definition playlist1 : PlaylistData :=
  {| playlist_error_message := None; playlist_name := "Mix";
     playlist_id := "P"; external_urls_spotify := "https://open.spotify.com/playlist/P" |}.

Definition t2 : TokenData :=
  {| access_token := "T2"; refresh_token := None; expires_in := 3600;
     error_description := None; error := None |}.

Definition refused_code : TokenData :=
  {| access_token := ""; refresh_token := None; expires_in := 0;
     error_description := Some "Invalid authorization code";
     error := Some "invalid_grant" |}.

Definition stale_credentials : SingleTenant.AuthInfo :=
  {| SingleTenant.accessToken := "stale"; SingleTenant.refreshToken := "r1";
     SingleTenant.clientId := "id"; SingleTenant.clientSecret := "secret" |}.

Definition no_error : ApiData := {| error_message := None; tracks := [] |}.

(** A Web API whose endpoints give the same answer to every request. *)
Definition demo_api (user : Fetched UserData) (status : Z) : WebApi :=
  {| me := fun _ _ => (80, user);
     playlists := fun _ _ _ => (90, Response status playlist1);
     playlist_tracks := fun _ _ _ => (70, Response status no_error);
     JSON_stringify_profile := fun profile => JS.to_string (profile_name profile) |}.

(** Both entries of a session removed from the two maps. *)
Definition forget (sid : string) (w : World) : World :=
  set_sessionTokens (delete sid) (set_transports (delete sid) w).

(** A runtime whose transport fails on every request. *)
Definition failing_transport : Runtime :=
  {| SPOTIFY_CLIENT_ID := "client-id";
     SPOTIFY_CLIENT_SECRET := "client-secret";
     env_SPOTIFY_REDIRECT_URI := None;
     accounts := fun _ _ => (250, Rejected "unused");
     web_api := fun _ _ => (120, Rejected "unused");
     JSON_stringify := fun items => pretty (length items);
     randomUUID := fun w => "session-" +:+ pretty (size (transports w));
     handleRequest := fun _ _ w => (Failed (new_Error "stream closed") None, w);
     close_calls_onclose := true;
     stack_depth := 4 |}.

(** A runtime deployed behind a public callback address. *)
Definition deployed : Runtime :=
  {| SPOTIFY_CLIENT_ID := "client-id";
     SPOTIFY_CLIENT_SECRET := "client-secret";
     env_SPOTIFY_REDIRECT_URI := Some "https://mcp.example.org/callback/spotify";
     accounts := fun _ _ => (250, Rejected "unused");
     web_api := fun _ _ => (120, Rejected "unused");
     JSON_stringify := fun items => pretty (length items);
     randomUUID := fun w => "session-" +:+ pretty (size (transports w));
     handleRequest := fun _ _ w =>
       (Responded {| res_status := 200; res_body := McpReply |}, w);
     close_calls_onclose := true;
     stack_depth := 4 |}.

Definition two_tracks : ApiData :=
  {| error_message := None;
     tracks := [ {| track_id := "t1"; track_name := "One";
                    track_artists := ["A"; "B"]; track_album := "First";
                    track_uri := "spotify:track:t1" |};
                 {| track_id := "t2"; track_name := "Two";
                    track_artists := ["C"]; track_album := "Second";
                    track_uri := "spotify:track:t2" |} ] |}.

(** ** Properties *)

(** *** Running the primitives *)

Lemma bind_run {A B} (m : M A) (k : A -> M B) w a w' :
  m w = (Return a, w') -> bind m k w = k a w'.
Proof. intros H. unfold bind. now rewrite H. Qed.

Lemma bind_throw {A B} (m : M A) (k : A -> M B) w e w' :
  m w = (Throw e, w') -> bind m k w = (Throw e, w').
Proof. intros H. unfold bind. now rewrite H. Qed.

Lemma isTokenExpired_run tokens w :
  isTokenExpired tokens w = (Return (expired (clock w) tokens), w).
Proof.
  unfold isTokenExpired, expired.
  destruct (expiresAt tokens) as [at_|]; [|reflexivity].
  destruct (at_ =? 0); reflexivity.
Qed.

Lemma expired_in_the_past now tokens :
  expiresAt tokens = None \/ (exists at_, expiresAt tokens = Some at_ /\ at_ <= now) ->
  expired now tokens = true.
Proof.
  unfold expired. intros [-> | (at_ & -> & Hle)]; [reflexivity|].
  apply orb_true_iff. right. now apply Z.leb_le.
Qed.

Lemma fetch_response {D} (host : nat -> Request -> Z * Fetched D) request w
    elapsed status data :
  host (length (sent w)) request = (elapsed, Response status data) ->
  fetch host request w = (Return (status, data), answered elapsed request w).
Proof. intros H. unfold fetch. now rewrite H. Qed.

Lemma fetch_rejected {D} (host : nat -> Request -> Z * Fetched D) request w
    elapsed reason :
  host (length (sent w)) request = (elapsed, Rejected reason) ->
  fetch host request w = (Throw (new_Error reason), answered elapsed request w).
Proof. intros H. unfold fetch. now rewrite H. Qed.

Lemma refreshSpotifyToken_accepted rt tokens w elapsed status data :
  accounts rt (length (sent w)) (refresh_request rt tokens)
    = (elapsed, Response status data) ->
  ok status = true ->
  refreshSpotifyToken rt tokens w
    = (Return (refreshed (clock w + elapsed) tokens data),
       answered elapsed (refresh_request rt tokens) w).
Proof.
  intros Hanswer Hok. unfold refreshSpotifyToken.
  rewrite (bind_run _ _ _ _ _ (fetch_response _ _ _ _ _ _ Hanswer)).
  cbn [fst snd]. rewrite Hok. reflexivity.
Qed.

Lemma refreshSpotifyToken_refused rt tokens w elapsed status data :
  accounts rt (length (sent w)) (refresh_request rt tokens)
    = (elapsed, Response status data) ->
  ok status = false ->
  exists e, refreshSpotifyToken rt tokens w
    = (Throw e, answered elapsed (refresh_request rt tokens) w).
Proof.
  intros Hanswer Hok. unfold refreshSpotifyToken.
  rewrite (bind_run _ _ _ _ _ (fetch_response _ _ _ _ _ _ Hanswer)).
  cbn [fst snd]. rewrite Hok. eexists. reflexivity.
Qed.

Lemma refreshSpotifyToken_unreachable rt tokens w elapsed reason :
  accounts rt (length (sent w)) (refresh_request rt tokens)
    = (elapsed, Rejected reason) ->
  refreshSpotifyToken rt tokens w
    = (Throw (new_Error reason), answered elapsed (refresh_request rt tokens) w).
Proof.
  intros Hanswer. unfold refreshSpotifyToken.
  now rewrite (bind_throw _ _ _ _ _ (fetch_rejected _ _ _ _ _ Hanswer)).
Qed.

Lemma getValidAccessToken_absent rt sid w :
  sessionTokens w !! sid = None ->
  getValidAccessToken rt sid w = (Return None, w).
Proof.
  intros Habsent. unfold getValidAccessToken, bind, gets. now rewrite Habsent.
Qed.

Lemma getValidAccessToken_fresh rt sid w tokens :
  sessionTokens w !! sid = Some tokens ->
  expired (clock w) tokens = false ->
  getValidAccessToken rt sid w = (Return (Some (accessToken tokens)), w).
Proof.
  intros Hstored Hfresh. unfold getValidAccessToken, bind, gets.
  rewrite Hstored, isTokenExpired_run, Hfresh. reflexivity.
Qed.

(** An expired record: one refresh request goes out, and its answer decides
    between storing the refreshed record and dropping the stored one. *)
Lemma getValidAccessToken_expired rt sid w tokens :
  sessionTokens w !! sid = Some tokens ->
  expired (clock w) tokens = true ->
  let request := refresh_request rt tokens in
  let answer := accounts rt (length (sent w)) request in
  let w1 := answered (fst answer) request w in
  getValidAccessToken rt sid w =
    match snd answer with
    | Response status data =>
        if ok status
        then (Return (Some (access_token data)),
              set_sessionTokens <[sid := refreshed (clock w1) tokens data]> w1)
        else (Return None, set_sessionTokens (delete sid) w1)
    | Rejected _ => (Return None, set_sessionTokens (delete sid) w1)
    end.
Proof.
  intros Hstored Hexpired request answer w1.
  unfold getValidAccessToken, bind at 1, gets.
  rewrite Hstored. unfold bind at 1. rewrite isTokenExpired_run, Hexpired.
  unfold try_catch. subst w1 request.
  destruct answer as [elapsed [reason|status data]] eqn:Hanswer; cbn [fst snd].
  - rewrite (bind_throw _ _ _ _ _ (refreshSpotifyToken_unreachable _ _ _ _ _ Hanswer)).
    reflexivity.
  - destruct (ok status) eqn:Hok.
    + rewrite (bind_run _ _ _ _ _ (refreshSpotifyToken_accepted _ _ _ _ _ _ Hanswer Hok)).
      reflexivity.
    + destruct (refreshSpotifyToken_refused _ _ _ _ _ _ Hanswer Hok) as [e He].
      rewrite (bind_throw _ _ _ _ _ He). reflexivity.
Qed.

(** *** Token resolution *)

(** Without a record both variants answer with their prompt and leave the
    world alone, whatever [apiCall] is. *)
Lemma no_record_requires_authentication_both rt sid w :
  sessionTokens w !! sid = None ->
  (forall apiCall,
      handleSpotifyTool rt sid apiCall w = (Return (auth_required rt sid), w))
  /\ (forall apiCall,
        ContextVariant.handleSpotifyTool rt sid apiCall w
          = (Return (ContextVariant.auth_required rt sid), w)).
Proof.
  intros Habsent.
  pose proof (getValidAccessToken_absent rt sid w Habsent) as Hnull.
  split; intros apiCall.
  - unfold handleSpotifyTool. now rewrite (bind_run _ _ _ _ _ Hnull).
  - unfold ContextVariant.handleSpotifyTool.
    now rewrite (bind_run _ _ _ _ _ Hnull).
Qed.

(** C2: a session without a token record resolves to [null] and gets the
    authentication prompt, which is not flagged as an error; whatever
    [apiCall] is supplied, the outcome and the world (the log of requests
    included) are the same, so it is never run.  This holds in both
    variants. *)
Theorem no_record_requires_authentication rt sid w :
  sessionTokens w !! sid = None ->
  getValidAccessToken rt sid w = (Return None, w)
  /\ (forall apiCall,
        handleSpotifyTool rt sid apiCall w = (Return (auth_required rt sid), w))
  /\ isError (auth_required rt sid) = false
  /\ (forall apiCall,
        ContextVariant.handleSpotifyTool rt sid apiCall w
          = (Return (ContextVariant.auth_required rt sid), w))
  /\ isError (ContextVariant.auth_required rt sid) = false.
Proof.
  intros Habsent.
  destruct (no_record_requires_authentication_both rt sid w Habsent)
    as (Hgate & Hvariant).
  split; [exact (getValidAccessToken_absent rt sid w Habsent)|].
  split; [exact Hgate|]. split; [reflexivity|].
  split; [exact Hvariant|reflexivity].
Qed.

Lemma no_record_requires_authentication_witness :
  sessionTokens empty_world !! "s1" = None
  /\ getValidAccessToken offline "s1" empty_world = (Return None, empty_world)
  /\ sent (snd (handleSpotifyTool offline "s1" probe empty_world)) = [].
Proof.
  assert (Habsent : sessionTokens empty_world !! "s1" = None) by reflexivity.
  destruct (no_record_requires_authentication offline "s1" empty_world Habsent)
    as (Hnull & Hgate & _).
  split; [exact Habsent|]. split; [exact Hnull|].
  rewrite (Hgate probe). reflexivity.
Defined.

(** C3: a stored record whose [expiresAt] is unset or not later than the
    clock costs exactly one refresh request.  When the token endpoint accepts
    it, the refreshed record is stored under the session id and its access
    token is returned; when the endpoint refuses or cannot be reached, the
    record is removed and [null] is returned.  In every case the log grows by
    that single request. *)
Theorem expired_record_refreshed_once rt sid w tokens :
  sessionTokens w !! sid = Some tokens ->
  expiresAt tokens = None
  \/ (exists at_, expiresAt tokens = Some at_ /\ at_ <= clock w) ->
  let request := refresh_request rt tokens in
  let answer := accounts rt (length (sent w)) request in
  let result := getValidAccessToken rt sid w in
  sent (snd result) = (sent w ++ [request])%list
  /\ match snd answer with
     | Response status data =>
         if ok status
         then exists tokens',
             sessionTokens (snd result) = <[sid := tokens']> (sessionTokens w)
             /\ fst result = Return (Some (accessToken tokens'))
             /\ accessToken tokens' = access_token data
             /\ expiresAt tokens'
                = Some (clock (snd result) + expires_in data * 1000)
         else fst result = Return None
              /\ sessionTokens (snd result) = delete sid (sessionTokens w)
     | Rejected _ =>
         fst result = Return None
         /\ sessionTokens (snd result) = delete sid (sessionTokens w)
     end.
Proof.
  intros Hstored Hpast request answer result.
  pose proof (getValidAccessToken_expired rt sid w tokens Hstored
                (expired_in_the_past _ _ Hpast)) as Hrun.
  cbv zeta in Hrun. fold request answer in Hrun. subst result.
  rewrite Hrun.
  destruct (snd answer) as [reason|status data].
  - repeat split; reflexivity.
  - destruct (ok status).
    + split; [reflexivity|]. eexists. repeat split; reflexivity.
    + repeat split; reflexivity.
Qed.

Lemma expired_record_refreshed_once_witness :
  sessionTokens (session_world 9000) !! "s1" = Some record1
  /\ fst (getValidAccessToken (demo_runtime (Response 200 renewed) (Rejected "unused"))
            "s1" (session_world 9000)) = Return (Some "at2")
  /\ length (sent (snd (getValidAccessToken
                          (demo_runtime (Response 200 renewed) (Rejected "unused"))
                          "s1" (session_world 9000)))) = 1%nat.
Proof.
  assert (Hstored : sessionTokens (session_world 9000) !! "s1" = Some record1)
    by reflexivity.
  assert (Hpast : expiresAt record1 = None
                  \/ (exists at_, expiresAt record1 = Some at_
                                  /\ at_ <= clock (session_world 9000))).
  { right. exists 5000. split; [reflexivity|]. cbn. lia. }
  destruct (expired_record_refreshed_once
              (demo_runtime (Response 200 renewed) (Rejected "unused"))
              "s1" (session_world 9000) record1 Hstored Hpast)
    as (Hsent & tokens' & _ & Hresult & Haccess & _).
  split; [exact Hstored|]. split.
  - rewrite Hresult, Haccess. reflexivity.
  - rewrite Hsent. reflexivity.
Defined.

(** C4: a refresh preserves the prior refresh token when the answer omits
    one.  When the token endpoint accepts the refresh of a stored, expired
    record, the record returned by [refreshSpotifyToken] is the one stored;
    it carries the answer's access token and expires [expires_in] seconds
    after the clock read when the answer arrived.  Its refresh token is the
    prior one when the answer has no [refresh_token], and the answer's when
    the answer has one; an empty string, which [||] takes for a missing
    value, counts as omitted. *)
Theorem refresh_keeps_or_replaces_refresh_token rt sid w tokens elapsed status data :
  sessionTokens w !! sid = Some tokens ->
  expiresAt tokens = None
  \/ (exists at_, expiresAt tokens = Some at_ /\ at_ <= clock w) ->
  accounts rt (length (sent w)) (refresh_request rt tokens)
    = (elapsed, Response status data) ->
  ok status = true ->
  exists tokens',
    fst (refreshSpotifyToken rt tokens w) = Return tokens'
    /\ sessionTokens (snd (getValidAccessToken rt sid w)) !! sid = Some tokens'
    /\ accessToken tokens' = access_token data
    /\ expiresAt tokens' = Some (clock w + elapsed + expires_in data * 1000)
    /\ (refresh_token data = None -> refreshToken tokens' = refreshToken tokens)
    /\ (refresh_token data = Some "" -> refreshToken tokens' = refreshToken tokens)
    /\ (forall rt2, refresh_token data = Some rt2 -> rt2 <> "" ->
          refreshToken tokens' = Some rt2).
Proof.
  intros Hstored Hpast Hanswer Hok.
  exists (refreshed (clock w + elapsed) tokens data).
  split.
  { now rewrite (refreshSpotifyToken_accepted _ _ _ _ _ _ Hanswer Hok). }
  split.
  { rewrite (getValidAccessToken_expired rt sid w tokens Hstored
               (expired_in_the_past _ _ Hpast)).
    rewrite Hanswer. cbn [fst snd]. rewrite Hok. cbn.
    apply lookup_insert_eq. }
  split; [reflexivity|]. split; [reflexivity|].
  unfold refreshed, JS.or; cbn [refreshToken].
  split; [|split].
  - now intros ->.
  - now intros ->.
  - intros rt2 -> Hne. cbn.
    destruct (String.eqb rt2 "") eqn:Heq; [|reflexivity].
    apply String.eqb_eq in Heq. contradiction.
Qed.

Lemma refresh_keeps_or_replaces_refresh_token_witness :
  sessionTokens (session_world 9000) !! "s1" = Some record1
  /\ ok 200 = true
  /\ exists tokens',
      sessionTokens
        (snd (getValidAccessToken
                (demo_runtime (Response 200 renewed) (Rejected "unused"))
                "s1" (session_world 9000))) !! "s1" = Some tokens'
      /\ accessToken tokens' = "at2"
      /\ refreshToken tokens' = Some "rt1"
      /\ expiresAt tokens' = Some 3609250.
Proof.
  assert (Hstored : sessionTokens (session_world 9000) !! "s1" = Some record1)
    by reflexivity.
  assert (Hpast : expiresAt record1 = None
                  \/ (exists at_, expiresAt record1 = Some at_
                                  /\ at_ <= clock (session_world 9000))).
  { right. exists 5000. split; [reflexivity|]. cbn. lia. }
  destruct (refresh_keeps_or_replaces_refresh_token
              (demo_runtime (Response 200 renewed) (Rejected "unused"))
              "s1" (session_world 9000) record1 250 200 renewed
              Hstored Hpast eq_refl eq_refl)
    as (tokens' & _ & Hkept & Haccess & Hexpiry & Homitted & _).
  split; [exact Hstored|]. split; [reflexivity|].
  exists tokens'. split; [exact Hkept|]. split; [exact Haccess|].
  split; [exact (Homitted eq_refl)|exact Hexpiry].
Defined.

(** An empty [refresh_token] in the answer counts as omitted: the stored
    record keeps the prior refresh token [rt1]. *)
Remark empty_refresh_token_counts_as_omitted :
  let rt := demo_runtime (Response 200 renewed_with_empty_refresh_token)
                         (Rejected "unused") in
  let stored := sessionTokens
                  (snd (getValidAccessToken rt "s1" (session_world 9000))) !! "s1" in
  refresh_token renewed_with_empty_refresh_token = Some ""
  /\ stored = Some {| accessToken := "at2"; refreshToken := Some "rt1";
                      expiresAt := Some 3609250 |}
  /\ (refreshToken <$> stored)
     <> Some (refresh_token renewed_with_empty_refresh_token).
Proof.
  cbv zeta. split; [reflexivity|]. split; [reflexivity|].
  vm_compute. discriminate.
Qed.

(** *** OAuth callback *)

(** C6: when the callback route receives a code and a session id (and no
    [error] parameter) and the token endpoint accepts the exchange, the
    record then stored under the session id holds the answer's access token
    and expires [expires_in] seconds after the clock read once the answer
    arrived, which is the clock at the end of the call. *)
Theorem callback_stores_exchanged_tokens rt w code sid error elapsed status data :
  code <> "" -> sid <> "" -> JS.truthy error = false ->
  accounts rt (length (sent w)) (exchange_request rt code)
    = (elapsed, Response status data) ->
  ok status = true ->
  let result := get_callback_spotify rt (Some code) (Some sid) error w in
  sessionTokens (snd result) !! sid
    = Some {| accessToken := access_token data;
              refreshToken := refresh_token data;
              expiresAt := Some (clock w + elapsed + expires_in data * 1000) |}
  /\ clock (snd result) = clock w + elapsed
  /\ fst result
     = Return {| res_status := 200;
                 res_body := Html "Spotify Connected Successfully" None |}.
Proof.
  intros Hcode Hsid Herror Hanswer Hok result.
  assert (Hexchange :
            exchangeCodeForTokens rt code w
            = (Return {| accessToken := access_token data;
                         refreshToken := refresh_token data;
                         expiresAt := Some (clock w + elapsed + expires_in data * 1000) |},
               answered elapsed (exchange_request rt code) w)).
  { unfold exchangeCodeForTokens.
    rewrite (bind_run _ _ _ _ _ (fetch_response _ _ _ _ _ _ Hanswer)).
    cbn [fst snd]. rewrite Hok. reflexivity. }
  subst result. unfold get_callback_spotify. rewrite Herror.
  assert (Hc : JS.truthy (Some code) = true).
  { cbn. apply negb_true_iff, String.eqb_neq, Hcode. }
  assert (Hs : JS.truthy (Some sid) = true).
  { cbn. apply negb_true_iff, String.eqb_neq, Hsid. }
  rewrite Hc, Hs. cbn [negb orb JS.to_string].
  unfold try_catch.
  rewrite (bind_run _ _ _ _ _ Hexchange). cbn.
  split; [apply lookup_insert_eq|]. split; reflexivity.
Qed.

Lemma callback_stores_exchanged_tokens_witness :
  "code-1" <> "" /\ "s1" <> "" /\ JS.truthy None = false /\ ok 200 = true
  /\ sessionTokens
       (snd (get_callback_spotify
               (demo_runtime (Response 200 granted) (Rejected "unused"))
               (Some "code-1") (Some "s1") None empty_world)) !! "s1"
     = Some {| accessToken := "at1"; refreshToken := Some "rt1";
               expiresAt := Some (1000 + 250 + 3600 * 1000) |}.
Proof.
  assert (Hcode : "code-1" <> "") by discriminate.
  assert (Hsid : "s1" <> "") by discriminate.
  split; [exact Hcode|]. split; [exact Hsid|].
  split; [reflexivity|]. split; [reflexivity|].
  exact (proj1 (callback_stores_exchanged_tokens
                  (demo_runtime (Response 200 granted) (Rejected "unused"))
                  empty_world "code-1" "s1" None 250 200 granted
                  Hcode Hsid eq_refl eq_refl eq_refl)).
Defined.

(** *** Substrings *)


Lemma prefix_append_l n s t :
  String.prefix n s = true -> String.prefix n (s +:+ t) = true.
Proof.
  revert s. induction n as [|c n IH]; intros s H.
  - simpl. now destruct (s +:+ t).
  - destruct s as [|d s]; [discriminate|]. simpl in H |- *.
    destruct (ascii_dec c d); [now apply IH|discriminate].
Qed.

Lemma includes_refl n : JS.includes n n = true.
Proof.
  assert (H : String.prefix n n = true).
  { induction n as [|c n IH]; simpl; [reflexivity|].
    destruct (ascii_dec c c); [exact IH|contradiction]. }
  destruct n; [reflexivity|].
  unfold JS.includes; fold JS.includes. now rewrite H.
Qed.

Lemma includes_append_l n s t :
  JS.includes n s = true -> JS.includes n (s +:+ t) = true.
Proof.
  induction s as [|c s IH]; intros H.
  - cbn in H. rewrite orb_false_r in H.
    destruct n; [|discriminate]. now destruct t.
  - cbn [JS.includes] in H. apply orb_true_iff in H as [H|H].
    + change (String c s +:+ t) with (String c (s +:+ t)).
      cbn [JS.includes].
      change (String c (s +:+ t)) with (String c s +:+ t).
      now rewrite (prefix_append_l _ _ t H).
    + change (String c s +:+ t) with (String c (s +:+ t)).
      cbn [JS.includes]. rewrite (IH H). apply orb_true_r.
Qed.

Lemma includes_append_r n s t :
  JS.includes n t = true -> JS.includes n (s +:+ t) = true.
Proof.
  intros H. induction s as [|c s IH]; [exact H|].
  change (String c s +:+ t) with (String c (s +:+ t)).
  cbn [JS.includes]. rewrite IH. apply orb_true_r.
Qed.

(** Looks for the needle among the operands of a concatenation. *)
Ltac find_substring :=
  first [ assumption
        | apply includes_refl
        | apply includes_append_l; find_substring
        | apply includes_append_r; find_substring ].

(** *** Auth gate *)

Lemma truthy_nonempty s : s <> "" -> JS.truthy (Some s) = true.
Proof. intros H. cbn. now apply negb_true_iff, String.eqb_neq. Qed.

(** With a token resolved, the gate is the [try]/[catch] around the call. *)
Lemma handleSpotifyTool_resolved rt sid apiCall w accessToken w1 :
  getValidAccessToken rt sid w = (Return (Some accessToken), w1) ->
  accessToken <> "" ->
  handleSpotifyTool rt sid apiCall w =
    match apiCall accessToken w1 with
    | (Return result, w2) => (Return result, w2)
    | (Throw e, w2) =>
        if bool_decide (response_status e = Some 401)
        then (Return (auth_expired rt sid), set_sessionTokens (delete sid) w2)
        else (Return (api_error e), w2)
    end.
Proof.
  intros Hresolved Hne. unfold handleSpotifyTool.
  rewrite (bind_run _ _ _ _ _ Hresolved), (truthy_nonempty _ Hne).
  cbn [negb JS.to_string]. unfold try_catch.
  destruct (apiCall accessToken w1) as [[result|e] w2]; [reflexivity|].
  destruct (bool_decide (response_status e = Some 401)); reflexivity.
Qed.

(** The branch for a thrown value that carries [response.status === 401]:
    the record goes and the error-flagged prompt with the link comes back. *)
Lemma unauthorized_error_drops_the_record rt sid apiCall w accessToken w1 e w2 :
  getValidAccessToken rt sid w = (Return (Some accessToken), w1) ->
  accessToken <> "" ->
  apiCall accessToken w1 = (Throw e, w2) ->
  response_status e = Some 401 ->
  handleSpotifyTool rt sid apiCall w
    = (Return (auth_expired rt sid), set_sessionTokens (delete sid) w2)
  /\ sessionTokens (set_sessionTokens (delete sid) w2) !! sid = None
  /\ isError (auth_expired rt sid) = true
  /\ JS.includes (authUrl rt sid) (text (auth_expired rt sid)) = true.
Proof.
  intros Hresolved Hne Hthrown Hstatus.
  rewrite (handleSpotifyTool_resolved _ _ _ _ _ _ Hresolved Hne), Hthrown.
  rewrite bool_decide_eq_true_2 by exact Hstatus.
  split; [reflexivity|]. split; [apply lookup_delete_eq|].
  split; [reflexivity|]. unfold auth_expired; cbn [text]. find_substring.
Qed.

(** C7: when the call made under the gate throws a value whose
    [response.status] is not 401, the gate returns the generic error result
    with the thrown message, and the world is exactly the one in which the
    call failed: handling the failure changes neither the token store nor
    anything else.  When the stored record had not expired, token resolution
    changed nothing either, so a call that leaves the store alone leaves it
    as it was before the gate was entered. *)
Theorem other_failure_is_reported_and_changes_nothing
    rt sid apiCall w accessToken w1 e w2 :
  getValidAccessToken rt sid w = (Return (Some accessToken), w1) ->
  accessToken <> "" ->
  apiCall accessToken w1 = (Throw e, w2) ->
  response_status e <> Some 401 ->
  handleSpotifyTool rt sid apiCall w = (Return (api_error e), w2)
  /\ sessionTokens (snd (handleSpotifyTool rt sid apiCall w)) = sessionTokens w2
  /\ isError (api_error e) = true
  /\ JS.includes (message e) (text (api_error e)) = true
  /\ (forall tokens at_,
        sessionTokens w !! sid = Some tokens ->
        expiresAt tokens = Some at_ -> at_ <> 0 -> clock w < at_ ->
        sessionTokens w2 = sessionTokens w1 ->
        sessionTokens (snd (handleSpotifyTool rt sid apiCall w)) = sessionTokens w).
Proof.
  intros Hresolved Hne Hthrown Hstatus.
  assert (Hrun : handleSpotifyTool rt sid apiCall w = (Return (api_error e), w2)).
  { rewrite (handleSpotifyTool_resolved _ _ _ _ _ _ Hresolved Hne), Hthrown.
    now rewrite bool_decide_eq_false_2 by exact Hstatus. }
  split; [exact Hrun|]. split; [now rewrite Hrun|].
  split; [reflexivity|].
  split; [unfold api_error; cbn [text]; find_substring|].
  intros tokens at_ Hstored Hexpiry Hset Hlater Hkept.
  rewrite Hrun. cbn [snd]. rewrite Hkept.
  rewrite (getValidAccessToken_fresh rt sid w tokens Hstored) in Hresolved.
  - now injection Hresolved as _ <-.
  - unfold expired. rewrite Hexpiry.
    apply orb_false_iff. split; [now apply Z.eqb_neq|now apply Z.leb_gt].
Qed.

Lemma other_failure_is_reported_and_changes_nothing_witness :
  "at1" <> ""
  /\ response_status (spotify_api_error server_error) <> Some 401
  /\ sessionTokens
       (snd (search_tracks (demo_runtime (Rejected "unused") (Response 503 server_error))
               "s1" "test" 10 (session_world 2000)))
     = sessionTokens (session_world 2000)
  /\ isError (api_error (spotify_api_error server_error)) = true.
Proof.
  assert (Hne : "at1" <> "") by discriminate.
  assert (Hstatus : response_status (spotify_api_error server_error) <> Some 401)
    by discriminate.
  destruct (other_failure_is_reported_and_changes_nothing
              (demo_runtime (Rejected "unused") (Response 503 server_error))
              "s1" (search_tracks_call
                      (demo_runtime (Rejected "unused") (Response 503 server_error))
                      "test" 10)
              (session_world 2000) "at1" (session_world 2000)
              (spotify_api_error server_error)
              (answered 120
                 (api_get "https://api.spotify.com/v1/search?q=test&type=track&limit=10"
                          "at1")
                 (session_world 2000))
              eq_refl Hne eq_refl Hstatus)
    as (_ & _ & Hflag & _ & Hframe).
  split; [exact Hne|]. split; [exact Hstatus|].
  split; [|exact Hflag].
  apply (Hframe record1 5000); [reflexivity|reflexivity|lia|cbn; lia|reflexivity].
Defined.

(** *** Tools under the gate *)

Lemma number_schema_accepts lo hi d value :
  lo <= value <= hi -> number_schema lo hi d (Some value) = Some value.
Proof.
  intros [Hlo Hhi]. unfold number_schema; simpl.
  apply Z.leb_le in Hlo, Hhi. now rewrite Hlo, Hhi.
Qed.

Lemma number_schema_default lo hi d :
  lo <= d <= hi -> number_schema lo hi d None = Some d.
Proof. exact (number_schema_accepts lo hi d d). Qed.

Lemma number_schema_refuses lo hi d value :
  value < lo \/ hi < value -> number_schema lo hi d (Some value) = None.
Proof.
  intros Hout. unfold number_schema; simpl.
  destruct (lo <=? value) eqn:Hlo; [|reflexivity].
  destruct (value <=? hi) eqn:Hhi; [|reflexivity].
  apply Z.leb_le in Hlo, Hhi. lia.
Qed.

(** What [search-tracks] does with an answer whose status is not 2xx,
    whichever it is: the error it throws is built by [new Error], so the
    gate reports it as a generic failure. *)
Lemma search_tracks_refused rt sid query limit w tokens elapsed status data :
  sessionTokens w !! sid = Some tokens ->
  expired (clock w) tokens = false ->
  accessToken tokens <> "" ->
  web_api rt (length (sent w)) (search_request query limit (accessToken tokens))
    = (elapsed, Response status data) ->
  ok status = false ->
  search_tracks rt sid query limit w
    = (Return (api_error (spotify_api_error data)),
       answered elapsed (search_request query limit (accessToken tokens)) w).
Proof.
  intros Hstored Hfresh Hne Hanswer Hok.
  unfold search_tracks.
  rewrite (handleSpotifyTool_resolved _ _ _ _ _ _
             (getValidAccessToken_fresh rt sid w tokens Hstored Hfresh) Hne).
  unfold search_tracks_call.
  rewrite (bind_run _ _ _ _ _ (fetch_response _ _ _ _ _ _ Hanswer)).
  cbn [fst snd]. rewrite Hok. reflexivity.
Qed.

(** C1 does not hold on the code.  Session [s1] holds a fresh record and
    Spotify answers the search with HTTP 401: the result is the generic
    error, it has no link to authenticate again, and the record stays in the
    token store. *)
Theorem http_401_answer_keeps_the_record :
  let rt := demo_runtime (Rejected "unused") (Response 401 token_expired_body) in
  let outcome := search_tracks rt "s1" "test" 10 (session_world 2000) in
  exists result,
    fst outcome = Return result
    /\ text result = "❌ **Spotify API Error**" +:+ nl +:+ nl
                     +:+ "Spotify API error: The access token expired"
    /\ isError result = true
    /\ JS.includes (authUrl rt "s1") (text result) = false
    /\ sessionTokens (snd outcome) !! "s1" = Some record1.
Proof.
  cbv zeta.
  rewrite (search_tracks_refused
             (demo_runtime (Rejected "unused") (Response 401 token_expired_body))
             "s1" "test" 10 (session_world 2000) record1
             120 401 token_expired_body eq_refl eq_refl
             ltac:(discriminate) eq_refl eq_refl).
  eexists. split; [reflexivity|]. split; [reflexivity|].
  split; [reflexivity|]. split; reflexivity.
Qed.

(** C8, as amended: for session [s1] without a token record,
    [search-tracks(query="test", limit=10)] completes with a result that is
    not flagged as an error.  In the canonical variant its text holds the
    link [<base>/auth?session=s1] to the server's own landing page, and that
    page links to the authorization URL, which holds [state=s1]; in the
    request-context variant the text holds the authorization URL itself. *)
Theorem search_tracks_without_record_prompts rt w :
  sessionTokens w !! "s1" = None ->
  (exists result,
      call_search_tracks rt "s1" (Some "test") (Some 10) w
        = (Return (Completed result), w)
      /\ isError result = false
      /\ JS.includes (baseUrl rt +:+ "/auth?session=s1") (text result) = true)
  /\ (exists link,
         get_auth rt (Some "s1")
           = {| res_status := 200;
                res_body := Html "Connect Spotify to Claude" (Some link) |}
         /\ link = getSpotifyAuthUrl rt "s1"
         /\ JS.includes "state=s1" link = true)
  /\ (exists result,
         ContextVariant.call_search_tracks rt "s1" (Some "test") (Some 10) w
           = (Return (Completed result), w)
         /\ isError result = false
         /\ JS.includes (getSpotifyAuthUrl rt "s1") (text result) = true
         /\ JS.includes "state=s1" (text result) = true).
Proof.
  intros Habsent.
  destruct (no_record_requires_authentication_both rt "s1" w Habsent)
    as (Hgate & Hvariant).
  assert (Hlink : JS.includes "state=s1" (getSpotifyAuthUrl rt "s1") = true).
  { unfold getSpotifyAuthUrl, JS.URLSearchParams_toString.
    cbn [map JS.join fst snd]. find_substring. }
  split; [|split].
  - exists (auth_required rt "s1").
    unfold call_search_tracks, search_tracks.
    rewrite number_schema_accepts by lia.
    rewrite (bind_run _ _ _ _ _ (Hgate _)).
    split; [reflexivity|]. split; [reflexivity|].
    unfold auth_required; cbn [text]. find_substring.
  - exists (getSpotifyAuthUrl rt "s1").
    split; [reflexivity|]. split; [reflexivity|exact Hlink].
  - exists (ContextVariant.auth_required rt "s1").
    unfold ContextVariant.call_search_tracks, ContextVariant.search_tracks.
    rewrite number_schema_accepts by lia.
    rewrite (bind_run _ _ _ _ _ (Hvariant _)).
    split; [reflexivity|]. split; [reflexivity|].
    unfold ContextVariant.auth_required; cbn [text].
    split; find_substring.
Qed.

Lemma search_tracks_without_record_prompts_witness :
  sessionTokens empty_world !! "s1" = None
  /\ (exists result,
         call_search_tracks offline "s1" (Some "test") (Some 10) empty_world
           = (Return (Completed result), empty_world)
         /\ isError result = false
         /\ JS.includes "http://localhost:8080/auth?session=s1" (text result) = true)
  /\ (exists result,
         ContextVariant.call_search_tracks offline "s1" (Some "test") (Some 10)
           empty_world = (Return (Completed result), empty_world)
         /\ isError result = false
         /\ JS.includes "state=s1" (text result) = true).
Proof.
  assert (Habsent : sessionTokens empty_world !! "s1" = None) by reflexivity.
  destruct (search_tracks_without_record_prompts offline empty_world Habsent)
    as ((result & Hcall & Hflag & Hlink) & _ & (result' & Hcall' & Hflag' & _ & Hstate)).
  split; [exact Habsent|]. split.
  - exists result. split; [exact Hcall|]. split; [exact Hflag|exact Hlink].
  - exists result'. split; [exact Hcall'|]. split; [exact Hflag'|exact Hstate].
Defined.

(** C8 as stated fails on the canonical variant: with the default
    configuration the prompt for session [s1] holds no [state=s1]. *)
Lemma canonical_prompt_has_no_state_parameter :
  sessionTokens empty_world !! "s1" = None
  /\ exists result,
      call_search_tracks offline "s1" (Some "test") (Some 10) empty_world
        = (Return (Completed result), empty_world)
      /\ isError result = false
      /\ JS.includes "http://localhost:8080/auth?session=s1" (text result) = true
      /\ JS.includes "state=s1" (text result) = false.
Proof.
  split; [reflexivity|]. eexists. split; [reflexivity|].
  split; [reflexivity|]. split; vm_compute; reflexivity.
Qed.

(** C9: the input schema of [get-recommendations] refuses more than five
    seeds and a limit outside 1..100, and takes 20 for an omitted limit; up
    to five seeds with a limit in range reach the handler.  With an empty
    seed list and a token resolved, the tool returns an error result saying
    that a seed is required, and the world is the one token resolution left:
    no request is sent for recommendations. *)
Theorem get_recommendations_bounds rt sid w :
  (forall seeds limit, (5 < length seeds)%nat ->
     call_get_recommendations rt sid (Some seeds) limit w
       = (Return InvalidArguments, w))
  /\ (forall seeds limit, limit < 1 \/ 100 < limit ->
        call_get_recommendations rt sid seeds (Some limit) w
          = (Return InvalidArguments, w))
  /\ (forall seeds, (length seeds <= 5)%nat ->
        call_get_recommendations rt sid (Some seeds) None w
          = call_get_recommendations rt sid (Some seeds) (Some 20) w)
  /\ (forall seeds limit, (length seeds <= 5)%nat -> 1 <= limit <= 100 ->
        call_get_recommendations rt sid (Some seeds) (Some limit) w
          = (let* result := get_recommendations rt sid seeds limit in
             ret (Completed result)) w)
  /\ (forall limit accessToken w1,
        1 <= limit <= 100 ->
        getValidAccessToken rt sid w = (Return (Some accessToken), w1) ->
        accessToken <> "" ->
        call_get_recommendations rt sid (Some []) (Some limit) w
          = (Return (Completed
                       (api_error (new_Error "At least one seed track is required"))),
             w1)
        /\ isError (api_error (new_Error "At least one seed track is required"))
           = true).
Proof.
  split; [|split; [|split; [|split]]].
  - intros seeds limit Hlong. unfold call_get_recommendations, array_schema.
    destruct (length seeds <=? 5)%nat eqn:Hle; [|reflexivity].
    apply Nat.leb_le in Hle. lia.
  - intros seeds limit Hout. unfold call_get_recommendations.
    rewrite (number_schema_refuses _ _ _ _ Hout).
    now destruct (array_schema 5 seeds).
  - intros seeds Hshort. unfold call_get_recommendations.
    now rewrite number_schema_default, number_schema_accepts by lia.
  - intros seeds limit Hshort Hrange. unfold call_get_recommendations, array_schema.
    apply Nat.leb_le in Hshort. rewrite Hshort.
    now rewrite number_schema_accepts by exact Hrange.
  - intros limit accessToken w1 Hrange Hresolved Hne. split; [|reflexivity].
    unfold call_get_recommendations, array_schema. cbn [length Nat.leb].
    rewrite number_schema_accepts by exact Hrange.
    unfold get_recommendations.
    erewrite bind_run; [reflexivity|].
    rewrite (handleSpotifyTool_resolved _ _ _ _ _ _ Hresolved Hne).
    reflexivity.
Qed.

Lemma get_recommendations_bounds_witness :
  call_get_recommendations offline "s1"
    (Some ["a"; "b"; "c"; "d"; "e"; "f"]) (Some 20) (session_world 2000)
    = (Return InvalidArguments, session_world 2000)
  /\ call_get_recommendations offline "s1" (Some ["a"]) (Some 101)
       (session_world 2000)
     = (Return InvalidArguments, session_world 2000)
  /\ call_get_recommendations offline "s1" (Some []) (Some 20) (session_world 2000)
     = (Return (Completed
                  (api_error (new_Error "At least one seed track is required"))),
        session_world 2000).
Proof.
  destruct (get_recommendations_bounds offline "s1" (session_world 2000))
    as (Hseeds & Hlimit & _ & _ & Hempty).
  split; [|split].
  - apply Hseeds. cbn. lia.
  - apply Hlimit. lia.
  - apply (Hempty 20 "at1" (session_world 2000)); [lia|reflexivity|discriminate].
Defined.

(** *** Routes and teardown *)

(** C10: a POST to [/mcp] whose [mcp-session-id] header holds a session id
    (a non-empty value) that is not registered, or that has no session id
    (no header, or an empty one) and whose body is not an initialize request,
    is answered with status 400 and the JSON-RPC error -32000, and leaves the
    world, both maps included, as it was. *)
Theorem post_without_valid_session_is_rejected rt w req :
  (exists sid, mcp_session_id req = Some sid /\ sid <> ""
               /\ transports w !! sid = None)
  \/ ((mcp_session_id req = None \/ mcp_session_id req = Some "")
      /\ is_initialize req = false) ->
  post_mcp rt req w = (Return bad_request, w)
  /\ res_status bad_request = 400
  /\ res_body bad_request
     = JsonRpcError (-32000) "Bad Request: No valid session ID provided"
  /\ transports (snd (post_mcp rt req w)) = transports w
  /\ sessionTokens (snd (post_mcp rt req w)) = sessionTokens w.
Proof.
  intros Hcase.
  assert (Hrun : post_mcp rt req w = (Return bad_request, w)).
  { unfold post_mcp, bind, gets, known_session.
    destruct Hcase as [(sid & -> & Hne & Hunknown) | (Hnone & Hinit)].
    - rewrite (truthy_nonempty _ Hne). cbn [JS.to_string andb negb].
      rewrite Hunknown.
      rewrite bool_decide_eq_false_2 by (intros [? ?]; discriminate).
      reflexivity.
    - rewrite Hinit. destruct Hnone as [-> | ->]; reflexivity. }
  rewrite Hrun. repeat split.
Qed.

Lemma post_without_valid_session_is_rejected_witness :
  (exists sid, Some "gone" = Some sid /\ sid <> ""
               /\ transports (session_world 2000) !! sid = None)
  /\ post_mcp offline {| mcp_session_id := Some "gone"; is_initialize := true |}
       (session_world 2000)
     = (Return bad_request, session_world 2000)
  /\ post_mcp offline {| mcp_session_id := None; is_initialize := false |}
       (session_world 2000)
     = (Return bad_request, session_world 2000).
Proof.
  assert (Hgone : exists sid, Some "gone" = Some sid /\ sid <> ""
                              /\ transports (session_world 2000) !! sid = None).
  { exists "gone". split; [reflexivity|]. split; [discriminate|reflexivity]. }
  split; [exact Hgone|]. split.
  - exact (proj1 (post_without_valid_session_is_rejected offline
                    (session_world 2000)
                    {| mcp_session_id := Some "gone"; is_initialize := true |}
                    (or_introl Hgone))).
  - exact (proj1 (post_without_valid_session_is_rejected offline
                    (session_world 2000)
                    {| mcp_session_id := None; is_initialize := false |}
                    (or_intror (conj (or_introl eq_refl) eq_refl)))).
Defined.

Lemma set_sessionTokens_id w f :
  f (sessionTokens w) = sessionTokens w -> set_sessionTokens f w = w.
Proof. intros H. destruct w. unfold set_sessionTokens. cbn in *. now rewrite H. Qed.

Lemma cleanupSession_removes rt depth sid w :
  transports (cleanupSession rt depth sid w) !! sid = None
  /\ sessionTokens (cleanupSession rt depth sid w) !! sid = None.
Proof.
  destruct depth; cbn [cleanupSession];
    destruct (transports w !! sid) eqn:Hregistered; cbn;
    (split; [first [apply lookup_delete_eq | exact Hregistered]
            | apply lookup_delete_eq]).
Qed.

Lemma cleanupSession_unregistered rt depth sid w :
  transports w !! sid = None ->
  cleanupSession rt depth sid w = set_sessionTokens (delete sid) w.
Proof. intros H. destruct depth; cbn [cleanupSession]; now rewrite H. Qed.

Lemma delete_both_orphan_free sid w :
  orphan_free w ->
  orphan_free (set_sessionTokens (delete sid) (set_transports (delete sid) w)).
Proof.
  intros Hfree k. cbn. destruct (decide (sid = k)) as [->|Hne].
  - rewrite lookup_delete_eq. intros [? ?]; discriminate.
  - rewrite !lookup_delete_ne by exact Hne. apply Hfree.
Qed.

Lemma delete_tokens_orphan_free sid w :
  orphan_free w -> orphan_free (set_sessionTokens (delete sid) w).
Proof.
  intros Hfree k. cbn. destruct (decide (sid = k)) as [->|Hne].
  - rewrite lookup_delete_eq. intros [? ?]; discriminate.
  - rewrite lookup_delete_ne by exact Hne. apply Hfree.
Qed.

Lemma cleanupSession_orphan_free rt depth :
  forall sid w, orphan_free w -> orphan_free (cleanupSession rt depth sid w).
Proof.
  induction depth as [|depth IH]; intros sid w Hfree; cbn [cleanupSession];
    destruct (transports w !! sid) as [transport|];
    try (now apply delete_tokens_orphan_free);
    apply delete_both_orphan_free; [exact Hfree|].
  destruct (close_calls_onclose rt); [|exact Hfree].
  destruct (JS.truthy (transport_sessionId transport)); [|exact Hfree].
  now apply IH.
Qed.

Lemma destroy_orphan_free rt ops :
  forall w, orphan_free w -> orphan_free (foldl (destroy rt) w ops).
Proof.
  induction ops as [|op ops IH]; intros w Hfree; [exact Hfree|].
  cbn [foldl]. apply IH. destruct op as [sid|transport]; cbn [destroy].
  - now apply cleanupSession_orphan_free.
  - unfold onclose. destruct (JS.truthy (transport_sessionId transport));
      [now apply cleanupSession_orphan_free|exact Hfree].
Qed.

(** C5: [cleanupSession], at any depth of re-entrant close notifications,
    leaves the session with neither a registered transport nor a token
    record; the close notification of a transport of that session does the
    same; afterwards token resolution for the session gives [null] without
    any request, and cleaning up again changes nothing.  A DELETE for a
    registered session, once the transport has answered it, runs the same
    cleanup and ends in such a state too.  No sequence of destructions turns
    a world without orphaned token records into one with an orphan. *)
Theorem destroying_a_session_removes_transport_and_tokens rt depth sid w :
  let w' := cleanupSession rt depth sid w in
  transports w' !! sid = None
  /\ sessionTokens w' !! sid = None
  /\ (forall transport, transport_sessionId transport = Some sid -> sid <> "" ->
        onclose rt depth transport w = w')
  /\ getValidAccessToken rt sid w' = (Return None, w')
  /\ (forall depth', cleanupSession rt depth' sid w' = w')
  /\ (forall req response w1,
        mcp_session_id req = Some sid -> sid <> "" ->
        is_Some (transports w !! sid) ->
        handleRequest rt sid req w = (Responded response, w1) ->
        let w'' := cleanupSession rt (stack_depth rt) sid w1 in
        delete_mcp rt req w = (Return response, w'')
        /\ transports w'' !! sid = None
        /\ sessionTokens w'' !! sid = None
        /\ getValidAccessToken rt sid w'' = (Return None, w''))
  /\ (forall ops, orphan_free w -> orphan_free (foldl (destroy rt) w ops)).
Proof.
  intros w'.
  destruct (cleanupSession_removes rt depth sid w) as [Htransport Htokens].
  fold w' in Htransport, Htokens.
  split; [exact Htransport|]. split; [exact Htokens|].
  split.
  { intros transport Hsid Hne. unfold onclose.
    rewrite Hsid, (truthy_nonempty _ Hne). reflexivity. }
  split; [now apply getValidAccessToken_absent|].
  split.
  { intros depth'. rewrite (cleanupSession_unregistered _ _ _ _ Htransport).
    apply set_sessionTokens_id, delete_id, Htokens. }
  split; [|intros ops; apply destroy_orphan_free].
  intros req response w1 Hheader Hne Hregistered Hhandled w''.
  destruct (cleanupSession_removes rt (stack_depth rt) sid w1) as [Ht Hk].
  fold w'' in Ht, Hk.
  split; [|split; [exact Ht|split; [exact Hk|now apply getValidAccessToken_absent]]].
  unfold delete_mcp, bind at 1, gets, known_session.
  rewrite Hheader, (truthy_nonempty _ Hne). cbn [JS.to_string andb].
  rewrite bool_decide_eq_true_2 by exact Hregistered. cbn [negb].
  unfold bind at 1, transport_handleRequest. rewrite Hhandled.
  reflexivity.
Qed.

Lemma destroying_a_session_removes_transport_and_tokens_witness :
  let w' := cleanupSession offline 4 "s1" (session_world 2000) in
  transports w' !! "s1" = None
  /\ sessionTokens w' !! "s1" = None
  /\ onclose offline 4 {| transport_sessionId := Some "s1" |} (session_world 2000)
     = w'
  /\ fst (getValidAccessToken offline "s1" w') = Return None
  /\ delete_mcp offline {| mcp_session_id := Some "s1"; is_initialize := false |}
       (session_world 2000)
     = (Return {| res_status := 200; res_body := McpReply |}, w')
  /\ orphan_free w'.
Proof.
  destruct (destroying_a_session_removes_transport_and_tokens
              offline 4 "s1" (session_world 2000))
    as (Htransport & Htokens & Hclose & Hnull & _ & Hdelete & Hfree).
  cbv zeta.
  split; [exact Htransport|]. split; [exact Htokens|]. split.
  { apply Hclose; [reflexivity|discriminate]. }
  split; [now rewrite Hnull|]. split.
  { apply (Hdelete {| mcp_session_id := Some "s1"; is_initialize := false |}
                   {| res_status := 200; res_body := McpReply |}
                   (session_world 2000));
      [reflexivity|discriminate|eexists; reflexivity|reflexivity]. }
  apply (Hfree [Terminate "s1"]).
  intros sid. cbn [session_world sessionTokens transports].
  destruct (decide (sid = "s1")) as [->|Hne].
  - intros _. eexists. reflexivity.
  - rewrite lookup_singleton_ne by congruence. intros [? ?]; discriminate.
Defined.

(** *** What token resolution and the gate leave alone *)

Lemma fetch_keeps_maps {D} (host : nat -> Request -> Z * Fetched D) request :
  keeps_maps (fetch host request).
Proof.
  intros w. unfold fetch.
  destruct (snd (host (length (sent w)) request)); split; reflexivity.
Qed.

Lemma ret_keeps_maps {A} (a : A) : keeps_maps (ret a).
Proof. intros w. split; reflexivity. Qed.

Lemma throw_keeps_maps {A} e : keeps_maps (@throw A e).
Proof. intros w. split; reflexivity. Qed.

Lemma bind_keeps_maps {A B} (m : M A) (k : A -> M B) :
  keeps_maps m -> (forall a, keeps_maps (k a)) -> keeps_maps (bind m k).
Proof.
  intros Hm Hk w. unfold bind. specialize (Hm w).
  destruct (m w) as [[a|e] w1]; cbn [snd] in *.
  - destruct (Hk a w1) as [Ht Hr]. rewrite Ht, Hr. exact Hm.
  - exact Hm.
Qed.

Lemma search_tracks_call_keeps_maps rt query limit accessToken :
  keeps_maps (search_tracks_call rt query limit accessToken).
Proof.
  unfold search_tracks_call.
  apply bind_keeps_maps; [apply fetch_keeps_maps|].
  intros response. destruct (negb (ok (fst response)));
    [apply throw_keeps_maps|apply ret_keeps_maps].
Qed.

Lemma get_recommendations_call_keeps_maps rt seeds limit accessToken :
  keeps_maps (get_recommendations_call rt seeds limit accessToken).
Proof.
  unfold get_recommendations_call.
  destruct (length seeds =? 0)%nat; [apply throw_keeps_maps|].
  apply bind_keeps_maps; [apply fetch_keeps_maps|].
  intros response. destruct (negb (ok (fst response)));
    [apply throw_keeps_maps|apply ret_keeps_maps].
Qed.

Lemma get_current_user_call_keeps_maps api accessToken :
  keeps_maps (get_current_user_call api accessToken).
Proof.
  unfold get_current_user_call.
  apply bind_keeps_maps; [apply fetch_keeps_maps|].
  intros response. destruct (negb (ok (fst response)));
    [apply throw_keeps_maps|apply ret_keeps_maps].
Qed.

Lemma create_playlist_call_keeps_maps api name description isPublic accessToken :
  keeps_maps (create_playlist_call api name description isPublic accessToken).
Proof.
  unfold create_playlist_call.
  apply bind_keeps_maps; [apply fetch_keeps_maps|]. intros userResponse.
  apply bind_keeps_maps; [apply fetch_keeps_maps|]. intros response.
  destruct (negb (ok (fst response)));
    [apply throw_keeps_maps|apply ret_keeps_maps].
Qed.

Lemma add_tracks_to_playlist_call_keeps_maps api playlistId trackUris accessToken :
  keeps_maps (add_tracks_to_playlist_call api playlistId trackUris accessToken).
Proof.
  unfold add_tracks_to_playlist_call.
  apply bind_keeps_maps; [apply fetch_keeps_maps|]. intros response.
  destruct (negb (ok (fst response)));
    [apply throw_keeps_maps|apply ret_keeps_maps].
Qed.

(** Token resolution always returns, and whatever it does to the store it
    does to the entry of its own session. *)
Lemma getValidAccessToken_local rt sid w :
  exists accessToken w1,
    getValidAccessToken rt sid w = (Return accessToken, w1)
    /\ transports w1 = transports w
    /\ forall other, other <> sid ->
         sessionTokens w1 !! other = sessionTokens w !! other.
Proof.
  destruct (sessionTokens w !! sid) as [tokens|] eqn:Hstored.
  - destruct (expired (clock w) tokens) eqn:Hexpired.
    + rewrite (getValidAccessToken_expired rt sid w tokens Hstored Hexpired).
      destruct (snd (accounts rt (length (sent w)) (refresh_request rt tokens)))
        as [reason|status data]; [|destruct (ok status)];
        eexists _, _; (split; [reflexivity|]); (split; [reflexivity|]);
        intros other Hne; cbn;
        first [apply lookup_delete_ne | apply lookup_insert_ne]; congruence.
    + rewrite (getValidAccessToken_fresh rt sid w tokens Hstored Hexpired).
      eexists _, _. repeat split.
  - rewrite (getValidAccessToken_absent rt sid w Hstored).
    eexists _, _. repeat split.
Qed.

(** The gate changes nothing but the record of its own session, provided
    the API call leaves the two maps alone. *)
Lemma gate_frame rt sid other apiCall w :
  other <> sid ->
  (forall accessToken, keeps_maps (apiCall accessToken)) ->
  sessionTokens (snd (handleSpotifyTool rt sid apiCall w)) !! other
    = sessionTokens w !! other
  /\ transports (snd (handleSpotifyTool rt sid apiCall w)) = transports w.
Proof.
  intros Hne Hframe.
  destruct (getValidAccessToken_local rt sid w)
    as (accessToken & w1 & Hresolved & Hregistry & Hlocal).
  unfold handleSpotifyTool. rewrite (bind_run _ _ _ _ _ Hresolved).
  destruct (JS.truthy accessToken); cbn [negb].
  - unfold try_catch.
    destruct (Hframe (JS.to_string accessToken) w1) as [Htokens Htransports].
    destruct (apiCall (JS.to_string accessToken) w1) as [[result|e] w2];
      cbn [snd] in *.
    + rewrite Htokens, Htransports. split; [now apply Hlocal|exact Hregistry].
    + destruct (bool_decide (response_status e = Some 401)); cbn.
      * rewrite lookup_delete_ne by congruence.
        rewrite Htokens, Htransports. split; [now apply Hlocal|exact Hregistry].
      * rewrite Htokens, Htransports. split; [now apply Hlocal|exact Hregistry].
  - cbn. split; [now apply Hlocal|exact Hregistry].
Qed.

Lemma apiCall_of_keeps_maps rt api call accessToken :
  keeps_maps (apiCall_of rt api call accessToken).
Proof.
  destruct call; cbn [apiCall_of].
  - apply search_tracks_call_keeps_maps.
  - apply get_current_user_call_keeps_maps.
  - apply create_playlist_call_keeps_maps.
  - apply add_tracks_to_playlist_call_keeps_maps.
  - apply get_recommendations_call_keeps_maps.
Qed.

(** X1: none of the five registered tools throws.  What their calls throw
    are [Error] objects ([new Error(...)] for an answer that is not 2xx or
    for an empty seed list, and the rejections of [fetch] and
    [response.json()]), and the gate turns each into a result.  So however
    the token endpoint and the Web API answer, a validated invocation
    returns a tool result: the authentication prompt, the prompt to
    authenticate again, the generic report of the error, or the result of
    the tool's own call. *)
Theorem registered_tools_never_throw rt api sid call w :
  exists result w',
    run_tool rt api sid call w = (Return result, w')
    /\ GateEnding rt sid (apiCall_of rt api call) result.
Proof.
  destruct (getValidAccessToken_local rt sid w)
    as (accessToken & w1 & Hresolved & _).
  unfold run_tool, handleSpotifyTool. rewrite (bind_run _ _ _ _ _ Hresolved).
  destruct (JS.truthy accessToken); cbn [negb].
  - unfold try_catch.
    destruct (apiCall_of rt api call (JS.to_string accessToken) w1)
      as [[result|e] w2] eqn:Hcall.
    + eexists _, _. split; [reflexivity|]. eapply Called, Hcall.
    + destruct (bool_decide (response_status e = Some 401)).
      * eexists _, _. split; [reflexivity|]. now apply Expired.
      * eexists _, _. split; [reflexivity|]. now eapply Reported.
  - eexists _, _. split; [reflexivity|]. now apply Prompted.
Qed.

(** X2: whichever of the five tools runs for a session, and however the
    token endpoint and the Web API answer, the token records of all other
    sessions and the whole transport registry are left as they were. *)
Theorem tools_touch_only_their_session rt api sid other call w :
  other <> sid ->
  sessionTokens (snd (run_tool rt api sid call w)) !! other
    = sessionTokens w !! other
  /\ transports (snd (run_tool rt api sid call w)) = transports w.
Proof.
  intros Hne. apply gate_frame; [exact Hne|].
  intros accessToken. apply apiCall_of_keeps_maps.
Qed.

Lemma tools_touch_only_their_session_witness :
  "s2" <> "s1"
  /\ sessionTokens
       (snd (run_tool (demo_runtime (Response 400 renewed) (Rejected "down"))
               (demo_api (Rejected "down") 200) "s1" (SearchTracks "test" 10)
               (set_sessionTokens <["s2" := record1]> (session_world 9000))))
       !! "s2" = Some record1
  /\ sessionTokens
       (snd (run_tool (demo_runtime (Response 400 renewed) (Rejected "down"))
               (demo_api (Rejected "down") 200) "s1" (SearchTracks "test" 10)
               (set_sessionTokens <["s2" := record1]> (session_world 9000))))
       !! "s1" = None.
Proof.
  assert (Hne : "s2" <> "s1") by discriminate.
  split; [exact Hne|]. split; [|reflexivity].
  exact (proj1 (tools_touch_only_their_session
                  (demo_runtime (Response 400 renewed) (Rejected "down"))
                  (demo_api (Rejected "down") 200) "s1" "s2"
                  (SearchTracks "test" 10)
                  (set_sessionTokens <["s2" := record1]> (session_world 9000))
                  Hne)).
Defined.

(** X3: when the stored record has expired and the token endpoint accepts
    the refresh with a non-empty access token, token resolution returns the
    new token after that single request, and a tool call made through the
    gate uses the new token: [get-current-user] sends the refresh request
    and then [GET /v1/me] with the new token as bearer, whatever the answer
    to the latter. *)
Theorem refreshed_token_is_the_one_used rt api sid w tokens elapsed status data :
  sessionTokens w !! sid = Some tokens ->
  expiresAt tokens = None
  \/ (exists at_, expiresAt tokens = Some at_ /\ at_ <= clock w) ->
  accounts rt (length (sent w)) (refresh_request rt tokens)
    = (elapsed, Response status data) ->
  ok status = true ->
  access_token data <> "" ->
  fst (getValidAccessToken rt sid w) = Return (Some (access_token data))
  /\ sent (snd (getValidAccessToken rt sid w))
     = (sent w ++ [refresh_request rt tokens])%list
  /\ sent (snd (get_current_user rt api sid w))
     = (sent w ++ [refresh_request rt tokens;
                   me_request (access_token data)])%list.
Proof.
  intros Hstored Hpast Hanswer Hok Hne.
  pose proof (getValidAccessToken_expired rt sid w tokens Hstored
                (expired_in_the_past _ _ Hpast)) as Hrun.
  cbv zeta in Hrun. rewrite Hanswer in Hrun. cbn [fst snd] in Hrun.
  rewrite Hok in Hrun.
  split; [now rewrite Hrun|]. split; [now rewrite Hrun|].
  unfold get_current_user.
  rewrite (handleSpotifyTool_resolved _ _ _ _ _ _ Hrun Hne).
  unfold get_current_user_call, bind at 1, fetch.
  cbn [sent set_sessionTokens answered].
  destruct (snd (me api _ _)) as [reason|status' user]; cbn [snd].
  - rewrite bool_decide_eq_false_2 by discriminate. cbn.
    now rewrite <- app_assoc.
  - cbn [fst snd]. destruct (ok status'); cbn [negb].
    + cbn. now rewrite <- app_assoc.
    + unfold throw. rewrite bool_decide_eq_false_2 by discriminate. cbn.
      now rewrite <- app_assoc.
Qed.

Lemma refreshed_token_is_the_one_used_witness :
  sessionTokens (session_world 9000) !! "s1" = Some record1
  /\ ok 200 = true
  /\ access_token t2 <> ""
  /\ sent (snd (get_current_user
                  (demo_runtime (Response 200 t2) (Rejected "unused"))
                  (demo_api (Response 200 somebody) 200) "s1"
                  (session_world 9000)))
     = [ refresh_request (demo_runtime (Response 200 t2) (Rejected "unused"))
           record1;
         me_request "T2" ].
Proof.
  assert (Hstored : sessionTokens (session_world 9000) !! "s1" = Some record1)
    by reflexivity.
  assert (Hpast : expiresAt record1 = None
                  \/ (exists at_, expiresAt record1 = Some at_
                                  /\ at_ <= clock (session_world 9000))).
  { right. exists 5000. split; [reflexivity|]. cbn. lia. }
  assert (Hne : access_token t2 <> "") by discriminate.
  split; [exact Hstored|]. split; [reflexivity|]. split; [exact Hne|].
  exact (proj2 (proj2 (refreshed_token_is_the_one_used
                         (demo_runtime (Response 200 t2) (Rejected "unused"))
                         (demo_api (Response 200 somebody) 200) "s1"
                         (session_world 9000) record1 250 200 t2
                         Hstored Hpast eq_refl eq_refl Hne))).
Defined.

(** X4: when the stored record has expired and the refresh is refused or
    the token endpoint cannot be reached, the gate removes the record and
    answers with the authentication prompt, which is not flagged as an
    error; only the refresh request was sent, and the API call is not run,
    whatever it is. *)
Theorem failed_refresh_ends_in_the_prompt rt sid w tokens :
  sessionTokens w !! sid = Some tokens ->
  expiresAt tokens = None
  \/ (exists at_, expiresAt tokens = Some at_ /\ at_ <= clock w) ->
  match snd (accounts rt (length (sent w)) (refresh_request rt tokens)) with
  | Response status _ => ok status = false
  | Rejected _ => True
  end ->
  forall apiCall,
    fst (handleSpotifyTool rt sid apiCall w) = Return (auth_required rt sid)
    /\ isError (auth_required rt sid) = false
    /\ sessionTokens (snd (handleSpotifyTool rt sid apiCall w))
       = delete sid (sessionTokens w)
    /\ sent (snd (handleSpotifyTool rt sid apiCall w))
       = (sent w ++ [refresh_request rt tokens])%list.
Proof.
  intros Hstored Hpast Hfailed apiCall.
  pose proof (getValidAccessToken_expired rt sid w tokens Hstored
                (expired_in_the_past _ _ Hpast)) as Hrun.
  cbv zeta in Hrun.
  assert (Hnull : getValidAccessToken rt sid w
                  = (Return None,
                     set_sessionTokens (delete sid)
                       (answered
                          (fst (accounts rt (length (sent w))
                                  (refresh_request rt tokens)))
                          (refresh_request rt tokens) w))).
  { rewrite Hrun.
    destruct (snd (accounts rt (length (sent w)) (refresh_request rt tokens)))
      as [reason|status data]; [reflexivity|now rewrite Hfailed]. }
  unfold handleSpotifyTool. rewrite (bind_run _ _ _ _ _ Hnull).
  repeat split.
Qed.

Lemma failed_refresh_ends_in_the_prompt_witness :
  sessionTokens (session_world 9000) !! "s1" = Some record1
  /\ fst (handleSpotifyTool (demo_runtime (Response 400 renewed) (Rejected "unused"))
            "s1" probe (session_world 9000))
     = Return (auth_required (demo_runtime (Response 400 renewed) (Rejected "unused"))
                 "s1")
  /\ sessionTokens
       (snd (handleSpotifyTool (demo_runtime (Response 400 renewed) (Rejected "unused"))
               "s1" probe (session_world 9000))) !! "s1" = None
  /\ length (sent (snd (handleSpotifyTool
                          (demo_runtime (Response 400 renewed) (Rejected "unused"))
                          "s1" probe (session_world 9000)))) = 1%nat.
Proof.
  assert (Hstored : sessionTokens (session_world 9000) !! "s1" = Some record1)
    by reflexivity.
  assert (Hpast : expiresAt record1 = None
                  \/ (exists at_, expiresAt record1 = Some at_
                                  /\ at_ <= clock (session_world 9000))).
  { right. exists 5000. split; [reflexivity|]. cbn. lia. }
  destruct (failed_refresh_ends_in_the_prompt
              (demo_runtime (Response 400 renewed) (Rejected "unused"))
              "s1" (session_world 9000) record1 Hstored Hpast eq_refl probe)
    as (Hprompt & _ & Hstore & Hsent).
  split; [exact Hstored|]. split; [exact Hprompt|]. split.
  - rewrite Hstore. apply lookup_delete_eq.
  - rewrite Hsent. reflexivity.
Defined.

(** *** The OAuth callback's other paths *)

(** X5: the callback answers 400 and does nothing else (no request goes
    out, the world stays as it was) when the query has an [error]
    parameter, which takes precedence, or lacks a code or a state. *)
Theorem callback_rejects_before_any_exchange rt code state error w :
  JS.truthy error = true \/ JS.truthy code = false \/ JS.truthy state = false ->
  get_callback_spotify rt code state error w
  = (Return {| res_status := 400;
               res_body :=
                 Plain (if JS.truthy error
                        then "Authentication error: " +:+ JS.to_string error
                        else "Missing authorization code or session ID") |},
     w).
Proof.
  intros Hcase. unfold get_callback_spotify.
  destruct (JS.truthy error) eqn:Herror; [reflexivity|].
  destruct Hcase as [Hcase|[Hcase|Hcase]]; [discriminate| |]; rewrite Hcase.
  - reflexivity.
  - now rewrite orb_true_r.
Qed.

Lemma callback_rejects_before_any_exchange_witness :
  JS.truthy (Some "access_denied") = true
  /\ get_callback_spotify offline None (Some "s1") (Some "access_denied")
       (session_world 2000)
     = (Return {| res_status := 400;
                  res_body := Plain "Authentication error: access_denied" |},
        session_world 2000)
  /\ get_callback_spotify offline (Some "code-1") (Some "") None
       (session_world 2000)
     = (Return {| res_status := 400;
                  res_body := Plain "Missing authorization code or session ID" |},
        session_world 2000).
Proof.
  split; [reflexivity|]. split.
  - exact (callback_rejects_before_any_exchange offline None (Some "s1")
             (Some "access_denied") (session_world 2000) (or_introl eq_refl)).
  - exact (callback_rejects_before_any_exchange offline (Some "code-1") (Some "")
             None (session_world 2000) (or_intror (or_intror eq_refl))).
Defined.

Lemma exchangeCodeForTokens_failed rt code w :
  match snd (accounts rt (length (sent w)) (exchange_request rt code)) with
  | Response status _ => ok status = false
  | Rejected _ => True
  end ->
  exchangeCodeForTokens rt code w
  = (Throw (new_Error
              match snd (accounts rt (length (sent w))
                           (exchange_request rt code)) with
              | Response _ data =>
                  "Token exchange failed: "
                  +:+ JS.to_string (JS.or (error_description data) (error data))
              | Rejected reason => reason
              end),
     answered (fst (accounts rt (length (sent w)) (exchange_request rt code)))
              (exchange_request rt code) w).
Proof.
  intros Hfailed. unfold exchangeCodeForTokens.
  destruct (accounts rt (length (sent w)) (exchange_request rt code))
    as [elapsed [reason|status data]] eqn:Hanswer; cbn [fst snd] in *.
  - now rewrite (bind_throw _ _ _ _ _ (fetch_rejected _ _ _ _ _ Hanswer)).
  - rewrite (bind_run _ _ _ _ _ (fetch_response _ _ _ _ _ _ Hanswer)).
    cbn [fst snd]. now rewrite Hfailed.
Qed.

(** X6: when the token endpoint refuses the code or cannot be reached, the
    callback answers 500 with the failure's message (for a refusal, the
    endpoint's [error_description], or else its [error]), stores nothing and
    leaves every record, the session's previous one included, as it was;
    exactly the one exchange request was sent. *)
Theorem callback_exchange_failure_stores_nothing rt code sid denied w :
  code <> "" -> sid <> "" -> JS.truthy denied = false ->
  match snd (accounts rt (length (sent w)) (exchange_request rt code)) with
  | Response status _ => ok status = false
  | Rejected _ => True
  end ->
  let outcome := get_callback_spotify rt (Some code) (Some sid) denied w in
  fst outcome
  = Return {| res_status := 500;
              res_body :=
                Plain ("Authentication error: "
                       +:+ match snd (accounts rt (length (sent w))
                                        (exchange_request rt code)) with
                           | Response _ data =>
                               "Token exchange failed: "
                               +:+ JS.to_string
                                     (JS.or (error_description data) (error data))
                           | Rejected reason => reason
                           end) |}
  /\ sessionTokens (snd outcome) = sessionTokens w
  /\ transports (snd outcome) = transports w
  /\ sent (snd outcome) = (sent w ++ [exchange_request rt code])%list.
Proof.
  intros Hcode Hsid Herror Hfailed outcome. subst outcome.
  unfold get_callback_spotify. rewrite Herror.
  rewrite (truthy_nonempty _ Hcode), (truthy_nonempty _ Hsid).
  cbn [negb orb JS.to_string]. unfold try_catch.
  rewrite (bind_throw _ _ _ _ _ (exchangeCodeForTokens_failed rt code w Hfailed)).
  repeat split.
Qed.

Lemma callback_exchange_failure_stores_nothing_witness :
  "code-1" <> "" /\ "s1" <> "" /\ JS.truthy None = false
  /\ fst (get_callback_spotify
            (demo_runtime (Response 400 refused_code) (Rejected "unused"))
            (Some "code-1") (Some "s1") None (session_world 2000))
     = Return {| res_status := 500;
                 res_body := Plain "Authentication error: Token exchange failed: Invalid authorization code" |}
  /\ sessionTokens
       (snd (get_callback_spotify
               (demo_runtime (Response 400 refused_code) (Rejected "unused"))
               (Some "code-1") (Some "s1") None (session_world 2000))) !! "s1"
     = Some record1.
Proof.
  assert (Hcode : "code-1" <> "") by discriminate.
  assert (Hsid : "s1" <> "") by discriminate.
  destruct (callback_exchange_failure_stores_nothing
              (demo_runtime (Response 400 refused_code) (Rejected "unused"))
              "code-1" "s1" None (session_world 2000) Hcode Hsid eq_refl eq_refl)
    as (Hanswer & Hstore & _).
  split; [exact Hcode|]. split; [exact Hsid|]. split; [reflexivity|].
  split; [exact Hanswer|]. now rewrite Hstore.
Defined.

Lemma callback_run_accepted rt w code sid denied elapsed status data :
  code <> "" -> sid <> "" -> JS.truthy denied = false ->
  accounts rt (length (sent w)) (exchange_request rt code)
    = (elapsed, Response status data) ->
  ok status = true ->
  get_callback_spotify rt (Some code) (Some sid) denied w
  = (Return {| res_status := 200;
               res_body := Html "Spotify Connected Successfully" None |},
     set_sessionTokens
       <[sid := {| accessToken := access_token data;
                   refreshToken := refresh_token data;
                   expiresAt := Some (clock w + elapsed + expires_in data * 1000) |}]>
       (answered elapsed (exchange_request rt code) w)).
Proof.
  intros Hcode Hsid Herror Hanswer Hok.
  unfold get_callback_spotify. rewrite Herror.
  rewrite (truthy_nonempty _ Hcode), (truthy_nonempty _ Hsid).
  cbn [negb orb JS.to_string]. unfold try_catch, bind at 1, exchangeCodeForTokens.
  rewrite (bind_run _ _ _ _ _ (fetch_response _ _ _ _ _ _ Hanswer)).
  cbn [fst snd]. rewrite Hok. reflexivity.
Qed.

(** X7: a successful callback writes the record of the session named by
    [state] and nothing else: the records of other sessions and the
    transport registry stay as they were.  It does not look the session up
    in the registry, so for a [state] that names no registered transport it
    leaves a token record without a transport. *)
Theorem callback_stores_without_checking_the_registry
    rt w code sid denied elapsed status data :
  code <> "" -> sid <> "" -> JS.truthy denied = false ->
  accounts rt (length (sent w)) (exchange_request rt code)
    = (elapsed, Response status data) ->
  ok status = true ->
  let w' := snd (get_callback_spotify rt (Some code) (Some sid) denied w) in
  transports w' = transports w
  /\ (forall other, other <> sid ->
        sessionTokens w' !! other = sessionTokens w !! other)
  /\ is_Some (sessionTokens w' !! sid)
  /\ (transports w !! sid = None -> ~ orphan_free w').
Proof.
  intros Hcode Hsid Herror Hanswer Hok w'. subst w'.
  rewrite (callback_run_accepted _ _ _ _ _ _ _ _ Hcode Hsid Herror Hanswer Hok).
  cbn [snd set_sessionTokens answered transports sessionTokens].
  split; [reflexivity|]. split.
  { intros other Hne. apply lookup_insert_ne. congruence. }
  split.
  { rewrite lookup_insert_eq. eexists. reflexivity. }
  intros Hunregistered Hfree.
  specialize (Hfree sid). cbn in Hfree.
  rewrite lookup_insert_eq, Hunregistered in Hfree.
  destruct Hfree as [? ?]; [eexists; reflexivity|discriminate].
Qed.

Lemma callback_stores_without_checking_the_registry_witness :
  "code-1" <> "" /\ "ghost" <> "" /\ ok 200 = true
  /\ transports (session_world 2000) !! "ghost" = None
  /\ is_Some (sessionTokens
                (snd (get_callback_spotify
                        (demo_runtime (Response 200 granted) (Rejected "unused"))
                        (Some "code-1") (Some "ghost") None (session_world 2000)))
              !! "ghost")
  /\ sessionTokens
       (snd (get_callback_spotify
               (demo_runtime (Response 200 granted) (Rejected "unused"))
               (Some "code-1") (Some "ghost") None (session_world 2000))) !! "s1"
     = Some record1.
Proof.
  assert (Hcode : "code-1" <> "") by discriminate.
  assert (Hsid : "ghost" <> "") by discriminate.
  destruct (callback_stores_without_checking_the_registry
              (demo_runtime (Response 200 granted) (Rejected "unused"))
              (session_world 2000) "code-1" "ghost" None 250 200 granted
              Hcode Hsid eq_refl eq_refl eq_refl)
    as (_ & Hothers & Hstored & _).
  split; [exact Hcode|]. split; [exact Hsid|]. split; [reflexivity|].
  split; [reflexivity|]. split; [exact Hstored|].
  rewrite (Hothers "s1") by discriminate. reflexivity.
Defined.

(** *** The MCP routes *)

(** X8: [POST /mcp] answers every request, also when the transport throws
    an error while handling it.  For a request that reaches a transport,
    registered before or just created for an initialize request without
    session id, the response is the one the transport gave; when the
    transport fails after the headers were sent, it is what the transport
    had written; when it fails before that, it is status 500 with JSON-RPC
    error -32603.  In each case the world is the one the transport left. *)
Theorem post_mcp_always_answers rt req w :
  (exists response w', post_mcp rt req w = (Return response, w'))
  /\ (forall sid handled w1,
        mcp_session_id req = Some sid -> sid <> "" ->
        is_Some (transports w !! sid) ->
        handleRequest rt sid req w = (handled, w1) ->
        post_mcp rt req w
        = (Return match handled with
                  | Responded response => response
                  | Failed _ (Some written) => written
                  | Failed _ None => internal_error
                  end, w1))
  /\ (forall handled w1,
        JS.truthy (mcp_session_id req) = false -> is_initialize req = true ->
        handleRequest rt (randomUUID rt w) req
          (set_transports
             <[randomUUID rt w := {| transport_sessionId := None |}]> w)
        = (handled, w1) ->
        post_mcp rt req w
        = (Return match handled with
                  | Responded response => response
                  | Failed _ (Some written) => written
                  | Failed _ None => internal_error
                  end, w1))
  /\ res_status internal_error = 500
  /\ res_body internal_error = JsonRpcError (-32603) "Internal server error".
Proof.
  split; [|split; [|split; [|split; reflexivity]]].
  - unfold post_mcp, bind at 1, gets.
    destruct (known_session (mcp_session_id req) w).
    + unfold transport_handleRequest_caught.
      destruct (handleRequest rt _ req w) as [[r|e [r|]] w1]; eexists _, _; reflexivity.
    + destruct (negb (JS.truthy (mcp_session_id req)) && is_initialize req).
      * unfold bind, gets, modify, transport_handleRequest_caught.
        destruct (handleRequest rt _ req _) as [[r|e [r|]] w1];
          eexists _, _; reflexivity.
      * eexists _, _; reflexivity.
  - intros sid handled w1 Hheader Hne Hregistered Hhandled.
    unfold post_mcp, bind at 1, gets, known_session.
    rewrite Hheader, (truthy_nonempty _ Hne). cbn [JS.to_string andb].
    rewrite bool_decide_eq_true_2 by exact Hregistered.
    unfold transport_handleRequest_caught. rewrite Hhandled.
    now destruct handled as [response|e [written|]].
  - intros handled w1 Hnone Hinit Hhandled.
    unfold post_mcp, bind at 1, gets, known_session.
    rewrite Hnone, Hinit. cbn [andb negb].
    unfold bind, gets, modify, transport_handleRequest_caught.
    rewrite Hhandled.
    now destruct handled as [response|e [written|]].
Qed.

Lemma post_mcp_always_answers_witness :
  post_mcp failing_transport
    {| mcp_session_id := Some "s1"; is_initialize := false |} (session_world 2000)
  = (Return internal_error, session_world 2000)
  /\ post_mcp deployed
       {| mcp_session_id := Some "s1"; is_initialize := false |} (session_world 2000)
     = (Return {| res_status := 200; res_body := McpReply |}, session_world 2000)
  /\ fst (post_mcp failing_transport
            {| mcp_session_id := None; is_initialize := true |} (session_world 2000))
     = Return internal_error.
Proof.
  destruct (post_mcp_always_answers failing_transport
              {| mcp_session_id := Some "s1"; is_initialize := false |}
              (session_world 2000)) as (_ & Hfailing & _).
  destruct (post_mcp_always_answers deployed
              {| mcp_session_id := Some "s1"; is_initialize := false |}
              (session_world 2000)) as (_ & Hanswering & _).
  destruct (post_mcp_always_answers failing_transport
              {| mcp_session_id := None; is_initialize := true |}
              (session_world 2000)) as (_ & _ & Hnew & _).
  split; [|split].
  - exact (Hfailing "s1" (Failed (new_Error "stream closed") None)
             (session_world 2000) eq_refl ltac:(discriminate)
             ltac:(eexists; reflexivity) eq_refl).
  - exact (Hanswering "s1" (Responded {| res_status := 200; res_body := McpReply |})
             (session_world 2000) eq_refl ltac:(discriminate)
             ltac:(eexists; reflexivity) eq_refl).
  - now rewrite (Hnew (Failed (new_Error "stream closed") None) _ eq_refl eq_refl eq_refl).
Defined.

(** X9: [GET /mcp] and [DELETE /mcp] (in both variants) answer 400 with the
    text "Invalid or missing session ID" when the header is missing, empty
    or names no registered transport, and leave the world as it was; so a
    token record stored for an unregistered session id cannot be removed
    through DELETE. *)
Theorem unknown_session_is_refused rt req w :
  known_session (mcp_session_id req) w = false ->
  let refusal := {| res_status := 400;
                    res_body := Plain "Invalid or missing session ID" |} in
  get_mcp rt req w = (Return refusal, w)
  /\ delete_mcp rt req w = (Return refusal, w)
  /\ ContextVariantSessions.delete_mcp rt req w = (Return refusal, w).
Proof.
  intros Hunknown refusal.
  unfold get_mcp, delete_mcp, ContextVariantSessions.delete_mcp, bind, gets.
  rewrite Hunknown. repeat split.
Qed.

Lemma unknown_session_is_refused_witness :
  known_session (Some "ghost")
    (set_sessionTokens <["ghost" := record1]> (session_world 2000)) = false
  /\ delete_mcp offline {| mcp_session_id := Some "ghost"; is_initialize := false |}
       (set_sessionTokens <["ghost" := record1]> (session_world 2000))
     = (Return {| res_status := 400;
                  res_body := Plain "Invalid or missing session ID" |},
        set_sessionTokens <["ghost" := record1]> (session_world 2000)).
Proof.
  split; [reflexivity|].
  exact (proj1 (proj2 (unknown_session_is_refused offline
                         {| mcp_session_id := Some "ghost"; is_initialize := false |}
                         (set_sessionTokens <["ghost" := record1]> (session_world 2000))
                         eq_refl))).
Defined.

(** X10: when the transport throws while handling a DELETE for a registered
    session, the canonical route throws too and [cleanupSession] does not
    run: the world is the one the transport left. *)
Theorem delete_failure_skips_the_cleanup rt req sid e written w w1 :
  mcp_session_id req = Some sid -> sid <> "" ->
  is_Some (transports w !! sid) ->
  handleRequest rt sid req w = (Failed e written, w1) ->
  delete_mcp rt req w = (Throw e, w1).
Proof.
  intros Hheader Hne Hregistered Hfailed.
  unfold delete_mcp, bind at 1, gets, known_session.
  rewrite Hheader, (truthy_nonempty _ Hne). cbn [JS.to_string andb].
  rewrite bool_decide_eq_true_2 by exact Hregistered. cbn [negb].
  unfold bind, transport_handleRequest. now rewrite Hfailed.
Qed.

Lemma delete_failure_skips_the_cleanup_witness :
  is_Some (transports (session_world 2000) !! "s1")
  /\ delete_mcp failing_transport
       {| mcp_session_id := Some "s1"; is_initialize := false |} (session_world 2000)
     = (Throw (new_Error "stream closed"), session_world 2000)
  /\ sessionTokens (session_world 2000) !! "s1" = Some record1.
Proof.
  assert (Hregistered : is_Some (transports (session_world 2000) !! "s1"))
    by (eexists; reflexivity).
  split; [exact Hregistered|]. split; [|reflexivity].
  apply (delete_failure_skips_the_cleanup failing_transport
           {| mcp_session_id := Some "s1"; is_initialize := false |}
           "s1" (new_Error "stream closed") None);
    [reflexivity|discriminate|exact Hregistered|reflexivity].
Defined.

(** *** Teardown in a registry keyed by session id *)

Lemma set_transports_id w f :
  f (transports w) = transports w -> set_transports f w = w.
Proof. intros H. destruct w. unfold set_transports. cbn in *. now rewrite H. Qed.

Lemma forget_forget sid w : forget sid (forget sid w) = forget sid w.
Proof.
  destruct w. unfold forget, set_sessionTokens, set_transports. cbn.
  f_equal; apply delete_id, lookup_delete_eq.
Qed.

(** In a registry keyed by session id, [cleanupSession] removes the two
    entries of its session and does nothing else, however deep the close
    notifications nest. *)
Lemma cleanupSession_well_keyed rt depth :
  forall sid w, well_keyed w -> cleanupSession rt depth sid w = forget sid w.
Proof.
  induction depth as [|depth IH]; intros sid w Hkeyed; cbn [cleanupSession];
    destruct (transports w !! sid) as [transport|] eqn:Hregistered;
    try reflexivity;
    try (unfold forget; now rewrite (set_transports_id w) by now apply delete_id).
  destruct (close_calls_onclose rt); [|reflexivity].
  destruct (JS.truthy (transport_sessionId transport)) eqn:Htruthy; [|reflexivity].
  destruct (Hkeyed sid transport Hregistered) as [Hsame|Hfalsy];
    [|congruence].
  rewrite Hsame. cbn [JS.to_string]. rewrite (IH sid w Hkeyed).
  apply forget_forget.
Qed.

Lemma forget_well_keyed sid w : well_keyed w -> well_keyed (forget sid w).
Proof.
  intros Hkeyed key transport. cbn.
  destruct (decide (sid = key)) as [->|Hne].
  - rewrite lookup_delete_eq. discriminate.
  - rewrite lookup_delete_ne by exact Hne. apply Hkeyed.
Qed.

(** X11: in a registry keyed by session id (each registered transport is
    uninitialized or registered under its own [sessionId]), destroying a
    session removes exactly its two entries: the transports and records of
    all other sessions stay, and the registry stays keyed by session id.
    Registering a fresh transport, as [POST /mcp] does, keeps it keyed
    too. *)
Theorem cleanup_touches_only_its_session rt depth sid w :
  well_keyed w ->
  (forall other, other <> sid ->
     transports (cleanupSession rt depth sid w) !! other = transports w !! other
     /\ sessionTokens (cleanupSession rt depth sid w) !! other
        = sessionTokens w !! other)
  /\ well_keyed (cleanupSession rt depth sid w)
  /\ (forall key,
        well_keyed
          (set_transports <[key := {| transport_sessionId := None |}]> w)).
Proof.
  intros Hkeyed. rewrite (cleanupSession_well_keyed rt depth sid w Hkeyed).
  split; [|split].
  - intros other Hne. cbn. split; apply lookup_delete_ne; congruence.
  - now apply forget_well_keyed.
  - intros key k transport. cbn.
    destruct (decide (key = k)) as [->|Hne].
    + rewrite lookup_insert_eq. intros [= <-]. now right.
    + rewrite lookup_insert_ne by exact Hne. apply Hkeyed.
Qed.

Lemma session_world_well_keyed start : well_keyed (session_world start).
Proof.
  intros key transport. cbn.
  destruct (decide (key = "s1")) as [->|Hne].
  - rewrite lookup_singleton_eq. intros [= <-]. now left.
  - rewrite lookup_singleton_ne by congruence. discriminate.
Qed.

Lemma cleanup_touches_only_its_session_witness :
  well_keyed (session_world 2000)
  /\ transports (cleanupSession offline 4 "s2" (session_world 2000)) !! "s1"
     = Some {| transport_sessionId := Some "s1" |}
  /\ sessionTokens (cleanupSession offline 4 "s2" (session_world 2000)) !! "s1"
     = Some record1.
Proof.
  pose proof (session_world_well_keyed 2000) as Hkeyed.
  destruct (cleanup_touches_only_its_session offline 4 "s2" (session_world 2000)
              Hkeyed) as (Hothers & _).
  destruct (Hothers "s1") as [Htransport Hrecord]; [discriminate|].
  split; [exact Hkeyed|]. split; [exact Htransport|exact Hrecord].
Defined.

(** X12: in a registry keyed by session id, the close handler of the
    request-context variant, which deletes the two entries itself, and the
    canonical close handler, which goes through [cleanupSession] and
    [transport.close()], leave the same world. *)
Theorem close_handlers_agree rt depth transport w :
  well_keyed w ->
  ContextVariantSessions.onclose transport w = onclose rt depth transport w.
Proof.
  intros Hkeyed. unfold ContextVariantSessions.onclose, onclose.
  destruct (JS.truthy (transport_sessionId transport)); [|reflexivity].
  now rewrite (cleanupSession_well_keyed rt depth _ w Hkeyed).
Qed.

Lemma close_handlers_agree_witness :
  well_keyed (session_world 2000)
  /\ ContextVariantSessions.onclose {| transport_sessionId := Some "s1" |}
       (session_world 2000)
     = onclose offline 4 {| transport_sessionId := Some "s1" |} (session_world 2000)
  /\ sessionTokens
       (ContextVariantSessions.onclose {| transport_sessionId := Some "s1" |}
          (session_world 2000)) !! "s1" = None.
Proof.
  pose proof (session_world_well_keyed 2000) as Hkeyed.
  split; [exact Hkeyed|]. split; [|reflexivity].
  exact (close_handlers_agree offline 4 {| transport_sessionId := Some "s1" |}
           (session_world 2000) Hkeyed).
Defined.

(** *** Links *)





Lemma includes_cons needle c rest :
  JS.includes needle (String c rest)
  = String.prefix needle (String c rest) || JS.includes needle rest.
Proof. reflexivity. Qed.

Lemma prefix_cons a n c s :
  String.prefix (String a n) (String c s)
  = if ascii_dec a c then String.prefix n s else false.
Proof. reflexivity. Qed.

Lemma replace_callback_path base :
  JS.includes "/c" base = false ->
  JS.replace "/callback/spotify" "" (base +:+ "/callback/spotify") = base.
Proof.
  induction base as [|c rest IH]; intros Hclean; [reflexivity|].
  rewrite includes_cons in Hclean.
  apply orb_false_iff in Hclean as [Hhere Hrest].
  change (String c rest +:+ "/callback/spotify")
    with (String c (rest +:+ "/callback/spotify")).
  assert (Hno : String.prefix "/callback/spotify"
                  (String c (rest +:+ "/callback/spotify")) = false).
  { rewrite prefix_cons in Hhere |- *.
    destruct (ascii_dec "/" c) as [_|_]; [|reflexivity].
    destruct rest as [|d rest]; [reflexivity|].
    change (String d rest +:+ "/callback/spotify")
      with (String d (rest +:+ "/callback/spotify")).
    rewrite prefix_cons in Hhere |- *.
    destruct (ascii_dec "c" d) as [_|_]; [|reflexivity].
    now destruct rest. }
  unfold JS.replace; fold JS.replace. rewrite Hno. now rewrite (IH Hrest).
Qed.

(** X14: when [SPOTIFY_REDIRECT_URI] is an origin followed by
    [/callback/spotify] (the origin holding no [/c]), the links in the
    prompts point to [/auth] on that same origin. *)
Theorem prompt_link_shares_the_callback_origin rt base :
  env_SPOTIFY_REDIRECT_URI rt = Some (base +:+ "/callback/spotify") ->
  base <> "" ->
  JS.includes "/c" base = false ->
  SPOTIFY_REDIRECT_URI rt = base +:+ "/callback/spotify"
  /\ baseUrl rt = base
  /\ forall sid, authUrl rt sid = base +:+ "/auth?session=" +:+ sid.
Proof.
  intros Henv Hne Hclean.
  assert (Hbase : baseUrl rt = base).
  { unfold baseUrl. rewrite Henv. cbn [fmap option_fmap option_map].
    rewrite (replace_callback_path _ Hclean). unfold JS.or_else.
    apply String.eqb_neq in Hne. now rewrite Hne. }
  split; [|split; [exact Hbase|]].
  - unfold SPOTIFY_REDIRECT_URI. rewrite Henv. unfold JS.or_else.
    now destruct base.
  - intros sid. unfold authUrl. now rewrite Hbase.
Qed.

Lemma prompt_link_shares_the_callback_origin_witness :
  "https://mcp.example.org" <> ""
  /\ JS.includes "/c" "https://mcp.example.org" = false
  /\ authUrl deployed "s1" = "https://mcp.example.org/auth?session=s1".
Proof.
  assert (Hne : "https://mcp.example.org" <> "") by discriminate.
  split; [exact Hne|]. split; [reflexivity|].
  exact (proj2 (proj2 (prompt_link_shares_the_callback_origin deployed
                         "https://mcp.example.org" eq_refl Hne eq_refl)) "s1").
Defined.

(** *** The tools' own work *)

(** X15: [add-tracks-to-playlist], with a token resolved and a 2xx answer,
    reports the number of URIs it was given, whatever the answer's body
    says; it sends its one POST for an empty list too.  A missing argument
    is refused before the gate is entered. *)
Theorem add_tracks_reports_the_number_submitted
    rt api sid playlistId trackUris w accessToken w1 elapsed status data :
  getValidAccessToken rt sid w = (Return (Some accessToken), w1) ->
  accessToken <> "" ->
  playlist_tracks api (length (sent w1)) (add_tracks_request playlistId accessToken)
    (UrisBody trackUris) = (elapsed, Response status data) ->
  ok status = true ->
  call_add_tracks_to_playlist rt api sid (Some playlistId) (Some trackUris) w
  = (Return (Completed
               {| text := "✅ Successfully added " +:+ pretty (length trackUris)
                          +:+ " track(s) to playlist!";
                  isError := false |}),
     answered elapsed (add_tracks_request playlistId accessToken) w1)
  /\ call_add_tracks_to_playlist rt api sid None (Some trackUris) w
     = (Return InvalidArguments, w)
  /\ call_add_tracks_to_playlist rt api sid (Some playlistId) None w
     = (Return InvalidArguments, w).
Proof.
  intros Hresolved Hne Hanswer Hok. split; [|split; reflexivity].
  unfold call_add_tracks_to_playlist, add_tracks_to_playlist.
  erewrite bind_run; [reflexivity|].
  rewrite (handleSpotifyTool_resolved _ _ _ _ _ _ Hresolved Hne).
  unfold add_tracks_to_playlist_call.
  rewrite (bind_run _ _ _ _ _
             (fetch_response
                (fun n request => playlist_tracks api n request (UrisBody trackUris))
                _ _ _ _ _ Hanswer)).
  cbn [fst snd]. rewrite Hok. reflexivity.
Qed.
Lemma add_tracks_reports_the_number_submitted_witness :
  "at1" <> "" /\ ok 201 = true
  /\ fst (call_add_tracks_to_playlist offline (demo_api (Rejected "unused") 201)
            "s1" (Some "P") (Some ["uri1"; "uri2"]) (session_world 2000))
     = Return (Completed
                 {| text := "✅ Successfully added 2 track(s) to playlist!";
                    isError := false |})
  /\ fst (call_add_tracks_to_playlist offline (demo_api (Rejected "unused") 201)
            "s1" (Some "P") (Some []) (session_world 2000))
     = Return (Completed
                 {| text := "✅ Successfully added 0 track(s) to playlist!";
                    isError := false |}).
Proof.
  assert (Hne : "at1" <> "") by discriminate.
  split; [exact Hne|]. split; [reflexivity|]. split.
  - now rewrite (proj1 (add_tracks_reports_the_number_submitted
                          offline (demo_api (Rejected "unused") 201) "s1" "P"
                          ["uri1"; "uri2"] (session_world 2000) "at1"
                          (session_world 2000) 70 201 no_error
                          eq_refl Hne eq_refl eq_refl)).
  - now rewrite (proj1 (add_tracks_reports_the_number_submitted
                          offline (demo_api (Rejected "unused") 201) "s1" "P"
                          [] (session_world 2000) "at1"
                          (session_world 2000) 70 201 no_error
                          eq_refl Hne eq_refl eq_refl)).
Defined.

(** X16: [create-playlist], with a token resolved, asks [GET /v1/me] and
    then posts to the playlists of the user id it read, without looking at
    the status of the first answer: when that answer has no [id], the POST
    goes to [/v1/users/undefined/playlists].  The result follows the second
    answer alone: the confirmation for a 2xx status, the generic error with
    Spotify's message otherwise.  An omitted description is [""] and an
    omitted [public] is [false]. *)
Theorem create_playlist_trusts_the_profile_answer
    rt api sid name description public w accessToken w1
    elapsed1 status1 user elapsed2 status2 data :
  getValidAccessToken rt sid w = (Return (Some accessToken), w1) ->
  accessToken <> "" ->
  me api (length (sent w1)) (me_request accessToken)
    = (elapsed1, Response status1 user) ->
  playlists api (S (length (sent w1)))
    (create_playlist_request (user_id user) accessToken)
    (PlaylistBody name description public)
    = (elapsed2, Response status2 data) ->
  let outcome := create_playlist rt api sid name description public w in
  sent (snd outcome)
  = (sent w1 ++ [me_request accessToken;
                 create_playlist_request (user_id user) accessToken])%list
  /\ (user_id user = None ->
      url (create_playlist_request (user_id user) accessToken)
      = "https://api.spotify.com/v1/users/undefined/playlists")
  /\ fst outcome
     = Return (if ok status2
               then {| text := "✅ Playlist created successfully!" +:+ nl +:+ nl
                               +:+ "**" +:+ playlist_name data +:+ "**" +:+ nl
                               +:+ "ID: " +:+ playlist_id data +:+ nl
                               +:+ "🔗 [Open in Spotify]("
                               +:+ external_urls_spotify data +:+ ")";
                       isError := false |}
               else api_error (api_failure (playlist_error_message data)))
  /\ call_create_playlist rt api sid (Some name) None None w
     = call_create_playlist rt api sid (Some name) (Some "") (Some false) w.
Proof.
  intros Hresolved Hne Hme Hplaylists outcome. subst outcome.
  assert (Hsecond :
            playlists api (length (sent (answered elapsed1 (me_request accessToken) w1)))
              (create_playlist_request (user_id user) accessToken)
              (PlaylistBody name description public)
            = (elapsed2, Response status2 data)).
  { cbn [answered sent]. rewrite length_app. cbn [length].
    now rewrite Nat.add_1_r. }
  unfold create_playlist.
  rewrite (handleSpotifyTool_resolved _ _ _ _ _ _ Hresolved Hne).
  unfold create_playlist_call.
  rewrite (bind_run _ _ _ _ _ (fetch_response _ _ _ _ _ _ Hme)).
  cbn [fst snd].
  rewrite (bind_run _ _ _ _ _
             (fetch_response
                (fun n request =>
                   playlists api n request (PlaylistBody name description public))
                _ _ _ _ _ Hsecond)).
  cbn [fst snd].
  split; [|split; [|split; [|reflexivity]]].
  - destruct (ok status2); cbn;
      [|rewrite bool_decide_eq_false_2 by discriminate; cbn];
      now rewrite <- app_assoc.
  - now intros ->.
  - destruct (ok status2); cbn; [reflexivity|].
    now rewrite bool_decide_eq_false_2 by discriminate.
Qed.

Lemma create_playlist_trusts_the_profile_answer_witness :
  "at1" <> ""
  /\ map url (sent (snd (create_playlist offline (demo_api (Response 401 nobody) 201)
                           "s1" "Mix" "" false (session_world 2000))))
     = [ "https://api.spotify.com/v1/me";
         "https://api.spotify.com/v1/users/undefined/playlists" ]
  /\ fst (create_playlist offline (demo_api (Response 401 nobody) 201)
            "s1" "Mix" "" false (session_world 2000))
     = Return {| text := "✅ Playlist created successfully!" +:+ nl +:+ nl
                         +:+ "**Mix**" +:+ nl +:+ "ID: P" +:+ nl
                         +:+ "🔗 [Open in Spotify](https://open.spotify.com/playlist/P)";
                 isError := false |}.
Proof.
  assert (Hne : "at1" <> "") by discriminate.
  destruct (create_playlist_trusts_the_profile_answer
              offline (demo_api (Response 401 nobody) 201) "s1" "Mix" "" false
              (session_world 2000) "at1" (session_world 2000)
              80 401 nobody 90 201 playlist1
              eq_refl Hne eq_refl eq_refl)
    as (Hsent & _ & Hresult & _).
  split; [exact Hne|]. split.
  - rewrite Hsent. reflexivity.
  - rewrite Hresult. reflexivity.
Defined.

(** X17: the input schema of [search-tracks] refuses a limit outside 1..50
    and a missing query, and takes 10 for an omitted limit.  With valid
    arguments, a token resolved and a 2xx answer, the tool sends the one
    search request and returns, not flagged as an error, the JSON text of
    the answer's tracks, each reduced to its summary. *)
Theorem search_tracks_bounds_and_result rt sid w :
  (forall query limit, limit < 1 \/ 50 < limit ->
     call_search_tracks rt sid query (Some limit) w = (Return InvalidArguments, w))
  /\ (forall limit,
        call_search_tracks rt sid None limit w = (Return InvalidArguments, w))
  /\ (forall query,
        call_search_tracks rt sid query None w
        = call_search_tracks rt sid query (Some 10) w)
  /\ (forall query limit accessToken w1 elapsed status data,
        1 <= limit <= 50 ->
        getValidAccessToken rt sid w = (Return (Some accessToken), w1) ->
        accessToken <> "" ->
        web_api rt (length (sent w1)) (search_request query limit accessToken)
          = (elapsed, Response status data) ->
        ok status = true ->
        call_search_tracks rt sid (Some query) (Some limit) w
        = (Return (Completed
                     {| text := JSON_stringify rt (map summary (tracks data));
                        isError := false |}),
           answered elapsed (search_request query limit accessToken) w1)).
Proof.
  split; [|split; [|split]].
  - intros query limit Hout. unfold call_search_tracks.
    rewrite (number_schema_refuses _ _ _ _ Hout). now destruct query.
  - intros limit. reflexivity.
  - intros query. unfold call_search_tracks.
    now rewrite number_schema_default, number_schema_accepts by lia.
  - intros query limit accessToken w1 elapsed status data
           Hrange Hresolved Hne Hanswer Hok.
    unfold call_search_tracks, search_tracks.
    rewrite number_schema_accepts by exact Hrange.
    erewrite bind_run; [reflexivity|].
    rewrite (handleSpotifyTool_resolved _ _ _ _ _ _ Hresolved Hne).
    unfold search_tracks_call.
    rewrite (bind_run _ _ _ _ _ (fetch_response _ _ _ _ _ _ Hanswer)).
    cbn [fst snd]. rewrite Hok. reflexivity.
Qed.

Lemma search_tracks_bounds_and_result_witness :
  call_search_tracks offline "s1" (Some "test") (Some 51) (session_world 2000)
  = (Return InvalidArguments, session_world 2000)
  /\ fst (call_search_tracks (demo_runtime (Rejected "unused") (Response 200 two_tracks))
            "s1" (Some "test") (Some 10) (session_world 2000))
     = Return (Completed {| text := "2"; isError := false |})
  /\ artist <$> map summary (tracks two_tracks) = ["A, B"; "C"].
Proof.
  destruct (search_tracks_bounds_and_result offline "s1" (session_world 2000))
    as (Hlimit & _).
  destruct (search_tracks_bounds_and_result
              (demo_runtime (Rejected "unused") (Response 200 two_tracks))
              "s1" (session_world 2000))
    as (_ & _ & _ & Hresult).
  split; [apply Hlimit; lia|]. split; [|reflexivity].
  rewrite (Hresult "test" 10 "at1" (session_world 2000) 120 200 two_tracks);
    [reflexivity|lia|reflexivity|discriminate|reflexivity|reflexivity].
Defined.

(** *** Escaping *)

Lemma prefix_char c x s :
  String.prefix (String c "") (String x s) = if ascii_dec c x then true else false.
Proof. rewrite prefix_cons. destruct (ascii_dec c x); [now destruct s|reflexivity]. Qed.

Lemma includes_char_append c a b :
  JS.includes (String c "") (a +:+ b)
  = JS.includes (String c "") a || JS.includes (String c "") b.
Proof.
  induction a as [|x a IH].
  - change ("" +:+ b) with b. now destruct b.
  - change (String x a +:+ b) with (String x (a +:+ b)).
    rewrite !includes_cons, !prefix_char, IH. now rewrite orb_assoc.
Qed.

Lemma includes_other_char c x :
  x <> c -> JS.includes (String c "") (String x "") = false.
Proof.
  intros Hne. rewrite includes_cons, prefix_char.
  destruct (ascii_dec c x); [congruence|reflexivity].
Qed.

Lemma hex_digit_alphanumeric n : JS.alphanumeric (JS.hex_digit n) = true.
Proof.
  unfold JS.hex_digit. generalize (N.to_nat n). intros k.
  do 16 (destruct k as [|k]; [reflexivity|]). reflexivity.
Qed.

(** X18: the query of a search is put in the URL through
    [encodeURIComponent], between [?q=] and [&type=track&limit=]; the
    encoded query holds letters, digits, [-_.!~*'()] and percent escapes
    only, so no character of the query (such as [&], [=], [#] or a space)
    can end the parameter or add one. *)
Theorem search_query_is_escaped query limit accessToken :
  url (search_request query limit accessToken)
  = "https://api.spotify.com/v1/search?q=" +:+ JS.encodeURIComponent query
    +:+ "&type=track&limit=" +:+ pretty limit
  /\ forall c,
       JS.alphanumeric c || JS.one_of "-_.!~*'()" c = false ->
       c <> "%"%char ->
       JS.includes (String c "") (JS.encodeURIComponent query) = false.
Proof.
  split; [reflexivity|].
  intros c Hreserved Hpercent. unfold JS.encodeURIComponent.
  induction query as [|x query IH]; [reflexivity|].
  cbn [JS.escape]. rewrite includes_char_append, IH, orb_false_r.
  cbn [andb].
  destruct (JS.alphanumeric x || JS.one_of "-_.!~*'()" x) eqn:Hkept.
  - apply includes_other_char. intros ->. congruence.
  - unfold JS.percent.
    rewrite !includes_cons, !prefix_char.
    apply orb_false_iff in Hreserved as [Halnum _].
    destruct (ascii_dec c "%"); [congruence|].
    destruct (ascii_dec c (JS.hex_digit (N_of_ascii x / 16))) as [->|_];
      [now rewrite hex_digit_alphanumeric in Halnum|].
    destruct (ascii_dec c (JS.hex_digit (N_of_ascii x mod 16))) as [->|_];
      [now rewrite hex_digit_alphanumeric in Halnum|].
    reflexivity.
Qed.

Lemma search_query_is_escaped_witness :
  JS.alphanumeric "&" || JS.one_of "-_.!~*'()" "&" = false
  /\ "&"%char <> "%"%char
  /\ JS.includes "&" (JS.encodeURIComponent "rock & roll&limit=50") = false
  /\ url (search_request "rock & roll&limit=50" 10 "at1")
     = "https://api.spotify.com/v1/search?q=rock%20%26%20roll%26limit%3D50&type=track&limit=10".
Proof.
  assert (Hne : "&"%char <> "%"%char) by discriminate.
  split; [reflexivity|]. split; [exact Hne|]. split; [|reflexivity].
  exact (proj2 (search_query_is_escaped "rock & roll&limit=50" 10 "at1")
           "&"%char eq_refl Hne).
Defined.

(** *** The single-tenant variants *)

(** X19: with both tokens set, token resolution first asks [GET /v1/me]
    with the stored access token.  A 2xx answer gives the stored token back
    after that one request and leaves the credentials alone.  Any other
    status leads to one refresh request built from the stored client id,
    client secret and refresh token; a non-empty [access_token] in its
    answer, whatever the answer's status, is returned and replaces the stored
    access token, while the stored refresh token is kept even if the answer
    holds another; an empty one makes the call throw. *)
Theorem probe_decides_between_reuse_and_refresh rt api info w elapsed status user :
  SingleTenant.accessToken info <> "" ->
  SingleTenant.refreshToken info <> "" ->
  me api (length (sent w)) (me_request (SingleTenant.accessToken info))
    = (elapsed, Response status user) ->
  let w1 := answered elapsed (me_request (SingleTenant.accessToken info)) w in
  (ok status = true ->
   SingleTenant.getValidAccessToken rt api info w
   = (Return (SingleTenant.accessToken info, info), w1))
  /\ (ok status = false ->
      forall elapsed2 status2 data,
        accounts rt (length (sent w1)) (SingleTenant.refresh_request info)
          = (elapsed2, Response status2 data) ->
        let w2 := answered elapsed2 (SingleTenant.refresh_request info) w1 in
        (access_token data <> "" ->
         SingleTenant.getValidAccessToken rt api info w
         = (Return (access_token data,
                    {| SingleTenant.accessToken := access_token data;
                       SingleTenant.refreshToken := SingleTenant.refreshToken info;
                       SingleTenant.clientId := SingleTenant.clientId info;
                       SingleTenant.clientSecret := SingleTenant.clientSecret info |}),
            w2))
        /\ (access_token data = "" ->
            SingleTenant.getValidAccessToken rt api info w
            = (Throw (new_Error
                        "Error with access token: Failed to refresh access token"),
               w2))).
Proof.
  intros Haccess Hrefresh Hprobe w1.
  assert (Hstart :
            SingleTenant.getValidAccessToken rt api info w
            = try_catch
                (let* response :=
                   fetch (me api) (me_request (SingleTenant.accessToken info)) in
                 if ok (fst response)
                 then ret (SingleTenant.accessToken info, info)
                 else
                   let* refreshResponse :=
                     fetch (accounts rt) (SingleTenant.refresh_request info) in
                   let data := snd refreshResponse in
                   if JS.truthy (Some (access_token data))
                   then ret (access_token data,
                             {| SingleTenant.accessToken := access_token data;
                                SingleTenant.refreshToken := SingleTenant.refreshToken info;
                                SingleTenant.clientId := SingleTenant.clientId info;
                                SingleTenant.clientSecret := SingleTenant.clientSecret info |})
                   else throw (new_Error "Failed to refresh access token"))
                (fun e => throw (new_Error ("Error with access token: "
                                            +:+ message e))) w).
  { unfold SingleTenant.getValidAccessToken.
    now rewrite (truthy_nonempty _ Haccess), (truthy_nonempty _ Hrefresh). }
  rewrite Hstart. unfold try_catch.
  rewrite (bind_run _ _ _ _ _ (fetch_response _ _ _ _ _ _ Hprobe)).
  cbn [fst snd]. fold w1.
  split.
  - intros Hok. now rewrite Hok.
  - intros Hok elapsed2 status2 data Hanswer. rewrite Hok.
    rewrite (bind_run _ _ _ _ _ (fetch_response _ _ _ _ _ _ Hanswer)).
    cbn [fst snd]. split.
    + intros Hne. now rewrite (truthy_nonempty _ Hne).
    + intros ->. reflexivity.
Qed.

Lemma probe_decides_between_reuse_and_refresh_witness :
  "stale" <> "" /\ "r1" <> "" /\ ok 401 = false
  /\ SingleTenant.getValidAccessToken
       (demo_runtime (Response 200 granted) (Rejected "unused"))
       (demo_api (Response 401 nobody) 200) stale_credentials empty_world
     = (Return ("at1",
                {| SingleTenant.accessToken := "at1";
                   SingleTenant.refreshToken := "r1";
                   SingleTenant.clientId := "id";
                   SingleTenant.clientSecret := "secret" |}),
        answered 250 (SingleTenant.refresh_request stale_credentials)
          (answered 80 (me_request "stale") empty_world)).
Proof.
  assert (Haccess : "stale" <> "") by discriminate.
  assert (Hrefresh : "r1" <> "") by discriminate.
  split; [exact Haccess|]. split; [exact Hrefresh|]. split; [reflexivity|].
  destruct (probe_decides_between_reuse_and_refresh
              (demo_runtime (Response 200 granted) (Rejected "unused"))
              (demo_api (Response 401 nobody) 200) stale_credentials empty_world
              80 401 nobody Haccess Hrefresh eq_refl) as (_ & Hrefreshed).
  destruct (Hrefreshed eq_refl 250 200 granted eq_refl) as (Hnew & _).
  apply Hnew. discriminate.
Defined.

(** X20: token resolution throws, before any request, when the access
    token or the refresh token is empty, as both are on a new server
    instance; the message asks for [set-spotify-credentials].  When the
    probe cannot be sent, or the probe is refused and the refresh request
    cannot be sent, it throws the failure's message behind
    "Error with access token: ". *)
Theorem token_resolution_needs_credentials rt api info w :
  (SingleTenant.accessToken info = "" \/ SingleTenant.refreshToken info = "" ->
   SingleTenant.getValidAccessToken rt api info w
   = (Throw (new_Error "No access token available. Please set credentials first using the set-spotify-credentials tool."),
      w))
  /\ SingleTenant.getValidAccessToken rt api SingleTenant.spotifyAuthInfo w
     = (Throw (new_Error "No access token available. Please set credentials first using the set-spotify-credentials tool."),
        w)
  /\ (SingleTenant.accessToken info <> "" ->
      SingleTenant.refreshToken info <> "" ->
      forall elapsed reason,
        me api (length (sent w)) (me_request (SingleTenant.accessToken info))
          = (elapsed, Rejected reason) ->
        SingleTenant.getValidAccessToken rt api info w
        = (Throw (new_Error ("Error with access token: " +:+ reason)),
           answered elapsed (me_request (SingleTenant.accessToken info)) w))
  /\ (SingleTenant.accessToken info <> "" ->
      SingleTenant.refreshToken info <> "" ->
      forall elapsed status user elapsed2 reason,
        me api (length (sent w)) (me_request (SingleTenant.accessToken info))
          = (elapsed, Response status user) ->
        ok status = false ->
        accounts rt
          (length (sent (answered elapsed
                           (me_request (SingleTenant.accessToken info)) w)))
          (SingleTenant.refresh_request info)
          = (elapsed2, Rejected reason) ->
        SingleTenant.getValidAccessToken rt api info w
        = (Throw (new_Error ("Error with access token: " +:+ reason)),
           answered elapsed2 (SingleTenant.refresh_request info)
             (answered elapsed (me_request (SingleTenant.accessToken info)) w))).
Proof.
  split; [|split; [reflexivity|split]].
  - intros Hempty. unfold SingleTenant.getValidAccessToken.
    destruct Hempty as [-> | ->]; [reflexivity|].
    now rewrite orb_true_r.
  - intros Haccess Hrefresh elapsed reason Hprobe.
    unfold SingleTenant.getValidAccessToken.
    rewrite (truthy_nonempty _ Haccess), (truthy_nonempty _ Hrefresh).
    cbn [negb orb]. unfold try_catch.
    now rewrite (bind_throw _ _ _ _ _ (fetch_rejected _ _ _ _ _ Hprobe)).
  - intros Haccess Hrefresh elapsed status user elapsed2 reason Hprobe Hok Hanswer.
    unfold SingleTenant.getValidAccessToken.
    rewrite (truthy_nonempty _ Haccess), (truthy_nonempty _ Hrefresh).
    cbn [negb orb]. unfold try_catch.
    rewrite (bind_run _ _ _ _ _ (fetch_response _ _ _ _ _ _ Hprobe)).
    cbn [fst snd]. rewrite Hok.
    now rewrite (bind_throw _ _ _ _ _ (fetch_rejected _ _ _ _ _ Hanswer)).
Qed.

Lemma token_resolution_needs_credentials_witness :
  SingleTenant.refreshToken
    (snd (SingleTenant.set_spotify_credentials "id" "secret" "at1" ""
            SingleTenant.spotifyAuthInfo)) = ""
  /\ fst (SingleTenant.getValidAccessToken offline (demo_api (Rejected "down") 200)
            (snd (SingleTenant.set_spotify_credentials "id" "secret" "at1" ""
                    SingleTenant.spotifyAuthInfo))
            empty_world)
     = Throw (new_Error "No access token available. Please set credentials first using the set-spotify-credentials tool.")
  /\ fst (SingleTenant.getValidAccessToken offline (demo_api (Rejected "down") 200)
            stale_credentials empty_world)
     = Throw (new_Error "Error with access token: down").
Proof.
  destruct (token_resolution_needs_credentials offline (demo_api (Rejected "down") 200)
              (snd (SingleTenant.set_spotify_credentials "id" "secret" "at1" ""
                      SingleTenant.spotifyAuthInfo))
              empty_world) as (Hempty & _).
  destruct (token_resolution_needs_credentials offline (demo_api (Rejected "down") 200)
              stale_credentials empty_world) as (_ & _ & Hdown & _).
  split; [reflexivity|]. split.
  - now rewrite (Hempty (or_intror eq_refl)).
  - rewrite (Hdown ltac:(discriminate) ltac:(discriminate) 80 "down" eq_refl).
    reflexivity.
Defined.

Lemma truthy_some_nonempty s : JS.truthy (Some s) = true -> s <> "".
Proof. cbn. intros H ->. discriminate. Qed.

(** What token resolution leaves behind, however it ends. *)
Lemma single_tenant_token_shape rt api info w :
  match SingleTenant.getValidAccessToken rt api info w with
  | (Return (token, info'), w') =>
      token = SingleTenant.accessToken info' /\ token <> ""
      /\ SingleTenant.refreshToken info' = SingleTenant.refreshToken info
      /\ SingleTenant.clientId info' = SingleTenant.clientId info
      /\ SingleTenant.clientSecret info' = SingleTenant.clientSecret info
      /\ (length (sent w') <= length (sent w) + 2)%nat
  | (Throw _, w') => (length (sent w') <= length (sent w) + 2)%nat
  end.
Proof.
  unfold SingleTenant.getValidAccessToken.
  destruct (JS.truthy (Some (SingleTenant.accessToken info))) eqn:Haccess;
    [|cbn; lia].
  destruct (JS.truthy (Some (SingleTenant.refreshToken info))) eqn:Hrefresh;
    [|cbn; lia].
  apply truthy_some_nonempty in Haccess.
  cbn [negb orb]. unfold try_catch, bind, fetch.
  destruct (me api _ _) as [elapsed [reason|status user]]; cbn [fst snd].
  - cbn. rewrite length_app. cbn. lia.
  - destruct (ok status).
    + cbn. rewrite length_app. cbn. repeat split; try assumption; lia.
    + destruct (accounts rt _ _) as [elapsed2 [reason|status2 data]]; cbn [fst snd].
      * cbn. rewrite !length_app. cbn. lia.
      * destruct (JS.truthy (Some (access_token data))) eqn:Hnew.
        -- apply truthy_some_nonempty in Hnew.
           cbn. rewrite !length_app. cbn. repeat split; try assumption; lia.
        -- cbn. rewrite !length_app. cbn. lia.
Qed.

(** X21: [check-credentials-status] never throws: it always returns a
    result.  It sends at most three requests, and never changes the stored
    refresh token, client id or client secret.  When one of the four
    credentials is empty it reports, without an error mark and without any
    request, that the credentials are not set. *)
Theorem check_credentials_status_always_reports rt api info w :
  exists result info' w',
    SingleTenant.check_credentials_status rt api info w
    = (Return (result, info'), w')
    /\ SingleTenant.refreshToken info' = SingleTenant.refreshToken info
    /\ SingleTenant.clientId info' = SingleTenant.clientId info
    /\ SingleTenant.clientSecret info' = SingleTenant.clientSecret info
    /\ (length (sent w') <= length (sent w) + 3)%nat
    /\ (SingleTenant.accessToken info = "" \/ SingleTenant.refreshToken info = ""
        \/ SingleTenant.clientId info = "" \/ SingleTenant.clientSecret info = "" ->
        result = {| text := "Spotify credentials are not set. Please use the set-spotify-credentials tool.";
                    isError := false |}
        /\ info' = info /\ w' = w).
Proof.
  unfold SingleTenant.check_credentials_status.
  destruct (JS.truthy (Some (SingleTenant.accessToken info))) eqn:H1;
    [|do 3 eexists; repeat split; cbn; lia].
  destruct (JS.truthy (Some (SingleTenant.refreshToken info))) eqn:H2;
    [|do 3 eexists; repeat split; cbn; lia].
  destruct (JS.truthy (Some (SingleTenant.clientId info))) eqn:H3;
    [|do 3 eexists; repeat split; cbn; lia].
  destruct (JS.truthy (Some (SingleTenant.clientSecret info))) eqn:H4;
    [|do 3 eexists; repeat split; cbn; lia].
  apply truthy_some_nonempty in H1, H2, H3, H4.
  assert (Hset : SingleTenant.accessToken info = "" \/ SingleTenant.refreshToken info = ""
                 \/ SingleTenant.clientId info = "" \/ SingleTenant.clientSecret info = ""
                 -> False) by (intros [?|[?|[?|?]]]; congruence).
  cbn [negb orb]. unfold try_catch at 1. unfold bind at 1.
  pose proof (single_tenant_token_shape rt api info w) as Hshape.
  destruct (SingleTenant.getValidAccessToken rt api info w)
    as [[[token info1]|e] w1].
  - destruct Hshape as (_ & _ & Hr & Hi & Hs & Hlen).
    cbn [fst snd]. unfold try_catch, bind, fetch.
    destruct (me api _ _) as [elapsed [reason|status user]]; cbn [fst snd].
    + do 3 eexists. split; [reflexivity|]. cbn. rewrite length_app. cbn.
      repeat split; try assumption; try lia; now exfalso.
    + destruct (ok status); do 3 eexists; (split; [reflexivity|]);
        cbn; rewrite length_app; cbn;
        repeat split; try assumption; try lia; now exfalso.
  - do 3 eexists. split; [reflexivity|].
    repeat split; try lia; now exfalso.
Qed.

(** X22: with the four credentials set and token resolution giving a
    token, [check-credentials-status] asks [GET /v1/me] once more with that
    token.  A 2xx answer is reported as valid credentials with the user's
    display name and e-mail address ("email not available" when the answer
    has none or an empty one); any other status is reported as an error
    holding the status code; a request that cannot be sent is reported as an
    error holding the failure's message.  In all three cases the credentials
    are the ones token resolution left. *)
Theorem check_credentials_status_reports_the_second_probe
    rt api info w token info1 w1 elapsed answer :
  SingleTenant.accessToken info <> "" ->
  SingleTenant.refreshToken info <> "" ->
  SingleTenant.clientId info <> "" ->
  SingleTenant.clientSecret info <> "" ->
  SingleTenant.getValidAccessToken rt api info w = (Return (token, info1), w1) ->
  me api (length (sent w1)) (me_request token) = (elapsed, answer) ->
  SingleTenant.check_credentials_status rt api info w
  = (Return
       (match answer with
        | Response status userData =>
            if ok status
            then {| text := "Spotify credentials are valid." +:+ nl
                            +:+ "Logged in as: "
                            +:+ JS.to_string (display_name userData)
                            +:+ " ("
                            +:+ JS.or_else (email userData) "email not available"
                            +:+ ")";
                    isError := false |}
            else {| text := "Spotify credentials may be invalid. Status code: "
                            +:+ pretty status;
                    isError := true |}
        | Rejected reason =>
            {| text := "Error checking credentials: " +:+ reason;
               isError := true |}
        end, info1),
     answered elapsed (me_request token) w1).
Proof.
  intros H1 H2 H3 H4 Hvalid Hanswer.
  unfold SingleTenant.check_credentials_status.
  rewrite (truthy_nonempty _ H1), (truthy_nonempty _ H2),
    (truthy_nonempty _ H3), (truthy_nonempty _ H4).
  cbn [negb orb]. unfold try_catch at 1.
  rewrite (bind_run _ _ _ _ _ Hvalid). cbn [fst snd].
  unfold try_catch. destruct answer as [reason|status userData].
  - now rewrite (bind_throw _ _ _ _ _ (fetch_rejected _ _ _ _ _ Hanswer)).
  - rewrite (bind_run _ _ _ _ _ (fetch_response _ _ _ _ _ _ Hanswer)).
    cbn [fst snd]. now destruct (ok status).
Qed.

Lemma check_credentials_status_reports_the_second_probe_witness :
  SingleTenant.check_credentials_status
    (demo_runtime (Response 200 granted) (Rejected "unused"))
    (demo_api (Response 401 nobody) 200) stale_credentials empty_world
  = (Return
       ({| text := "Spotify credentials may be invalid. Status code: 401";
           isError := true |},
        {| SingleTenant.accessToken := "at1";
           SingleTenant.refreshToken := "r1";
           SingleTenant.clientId := "id";
           SingleTenant.clientSecret := "secret" |}),
     answered 80 (me_request "at1")
       (answered 250 (SingleTenant.refresh_request stale_credentials)
          (answered 80 (me_request "stale") empty_world))).
Proof.
  exact (check_credentials_status_reports_the_second_probe
           (demo_runtime (Response 200 granted) (Rejected "unused"))
           (demo_api (Response 401 nobody) 200) stale_credentials empty_world
           "at1" _ _ 80 (Response 401 nobody)
           ltac:(discriminate) ltac:(discriminate)
           ltac:(discriminate) ltac:(discriminate) eq_refl eq_refl).
Defined.
